(** * TinyLink: short-code allocation and redirect tracking

    A shallow embedding of [server.js] (the Express handlers and their
    helper functions) and of the [links] table declared in [db/init.js],
    with the properties of the code allocator and of the link store.

    Conventions of the model.
    - A JavaScript string is a [string]; a field of a request body is a
      string or absent.  A timestamp is an integer ([Z]).
    - An INTEGER column holds the integers up to 2147483647, and the
      sequence of the SERIAL column ends there: a statement that would go
      beyond raises.  A statement also raises on a text parameter that holds
      the character U+0000, and an INSERT on a URL too long for a row of the
      index on [target_url].  A handler answers 500 from its [catch] when a
      statement raises.  What is not covered: a lost connection, a server
      started without a pool (the 503 answers), and requests served at the
      same time, each handler being run from its first statement to its
      answer before the next one starts.
    - The table is the list of its rows.  A query without ORDER BY returns
      the rows it selects in an order that is the database's to choose; that
      order is an argument of the handler that depends on it.
    - [NOW()] is the time of the request, an argument of each handler.
    - [Math.random()] is read from a sequence of values in [0, 1) that the
      environment supplies; arithmetic on them is exact. *)

From Stdlib Require Import ZArith QArith Qround List String Ascii Bool Arith Lia.
From Stdlib Require Import Permutation Sorted.
Import ListNotations.

Open Scope string_scope.
Open Scope Z_scope.

(** ** JavaScript values used by the handlers *)

(** A field of [req.body] that the handler destructures: absent
    ([undefined]) or a string; the other JSON values are not modelled. *)
Definition js_value := option string.

(** Truthiness of such a value: [undefined] and the empty string are falsy. *)
Definition truthy (v : js_value) : bool :=
  match v with
  | None => false
  | Some s => negb (s =? "")%string
  end.

(** The string a present value holds (the handlers only read it after a
    truthiness test). *)
Definition str (v : js_value) : string :=
  match v with
  | None => ""
  | Some s => s
  end.

(** [String.prototype.charAt]: the character at [i] as a one-character
    string, the empty string out of range. *)
Definition charAt (s : string) (i : Z) : string :=
  if i <? 0 then ""
  else match String.get (Z.to_nat i) s with
       | Some c => String c ""
       | None => ""
       end.

(** ** Math.random *)

(** One result of [Math.random()]: a number in [0, 1).  The product
    [Math.random() * n] is taken exactly: the rounding of the floating-point
    product is not modelled. *)
Record random_value : Type := mk_random {
  rv : Q;
  rv_range : Qle_bool 0 rv && negb (Qle_bool 1 rv) = true
}.

(** The results of the successive calls of [Math.random()]; a position in
    the sequence is threaded through the code that draws from it. *)
Definition randomness := nat -> random_value.

Definition Math_floor (q : Q) : Z := Qfloor q.

(** ** Helper functions of server.js *)

Module Helpers.

(** [const chars] of [generateShortCode]. *)
Definition chars : string :=
  "ABCDEFGHIJKLMNOPQRSTUVWXYZabcdefghijklmnopqrstuvwxyz0123456789".

(** The body of the [for] loop of [generateShortCode], run [n] times:
    [code += chars.charAt(Math.floor(Math.random() * chars.length))]. *)
Fixpoint append_random (g : randomness) (n : nat) (code : string) (k : nat)
  : string * nat :=
  match n with
  | O => (code, k)
  | S n' =>
      let i := Math_floor (rv (g k) * inject_Z (Z.of_nat (String.length chars))) in
      append_random g n' (code ++ charAt chars i) (S k)
  end.

(** [generateShortCode()], drawing from [g] at position [k]; returns the
    code and the position after the draws. *)
Definition generateShortCode (g : randomness) (k : nat) : string * nat :=
  let length := Math_floor (rv (g k) * 3) + 6 in
  append_random g (Z.to_nat length) "" (S k).

(** A character range [lo-hi] of a regular expression's character class. *)
Definition in_range (lo hi c : ascii) : bool :=
  (nat_of_ascii lo <=? nat_of_ascii c)%nat && (nat_of_ascii c <=? nat_of_ascii hi)%nat.

(** The class [[A-Za-z0-9]]. *)
Definition class_alnum (c : ascii) : bool :=
  in_range "A" "Z" c || in_range "a" "z" c || in_range "0" "9" c.

(** [/^cls{lo,hi}$/.test(s)]: the whole of [s] is between [lo] and [hi]
    characters of the class (no flag: [$] is the end of the input). *)
Fixpoint test_repeat (cls : ascii -> bool) (lo hi : nat) (s : string) {struct s}
  : bool :=
  match s with
  | EmptyString => (lo =? 0)%nat
  | String c s' =>
      match hi with
      | O => false
      | S hi' => cls c && test_repeat cls (Nat.pred lo) hi' s'
      end
  end.

(** [isValidCode(code)]: [/^[A-Za-z0-9]{6,8}$/.test(code)]. *)
Definition isValidCode (code : string) : bool :=
  test_repeat class_alnum 6 8 code.

End Helpers.

(** ** The URL constructor *)

(** [new URL(input)] with no base: the parser of the URL Standard, followed
    as far as the scheme, the opaque and plain paths of a scheme that is not
    special, and the host of a special scheme when it is a plain domain name.
    On every other input (a port, credentials, an IP address, a percent sign
    or a punycode label in the host, the host of a [file:] URL or of a scheme
    that is not special) the result is [Elsewhere]: what the constructor does
    there is left to a parameter of [isValidUrl]. *)
Module Url.

Import Helpers.

Inductive parse_result : Type :=
| Parsed (scheme : string)   (* a URL record with this scheme *)
| Invalid                    (* the constructor throws TypeError *)
| Elsewhere.                 (* outside the part of the parser followed here *)

Definition is_c0_or_space (c : ascii) : bool := (nat_of_ascii c <=? 32)%nat.

Definition is_tab_or_newline (c : ascii) : bool :=
  (nat_of_ascii c =? 9)%nat || (nat_of_ascii c =? 10)%nat || (nat_of_ascii c =? 13)%nat.

Fixpoint strip_leading (s : string) : string :=
  match s with
  | EmptyString => EmptyString
  | String c s' => if is_c0_or_space c then strip_leading s' else s
  end.

Fixpoint strip_trailing (s : string) : string :=
  match s with
  | EmptyString => EmptyString
  | String c s' =>
      let t := strip_trailing s' in
      if is_c0_or_space c && (t =? "")%string then "" else String c t
  end.

Fixpoint remove_tab_newline (s : string) : string :=
  match s with
  | EmptyString => EmptyString
  | String c s' =>
      if is_tab_or_newline c then remove_tab_newline s'
      else String c (remove_tab_newline s')
  end.

Definition is_alpha (c : ascii) : bool := in_range "A" "Z" c || in_range "a" "z" c.

Definition is_digit (c : ascii) : bool := in_range "0" "9" c.

Definition is_scheme_char (c : ascii) : bool :=
  is_alpha c || is_digit c || (c =? "+")%char || (c =? "-")%char || (c =? ".")%char.

Definition to_lower (c : ascii) : ascii :=
  if in_range "A" "Z" c then ascii_of_nat (nat_of_ascii c + 32) else c.

Fixpoint lowercase (s : string) : string :=
  match s with
  | EmptyString => EmptyString
  | String c s' => String (to_lower c) (lowercase s')
  end.

(** Scheme state: the scheme read so far is [buffer]; on [:] returns the
    scheme and the remaining input, on anything else there is no scheme. *)
Fixpoint scheme_state (buffer s : string) : option (string * string) :=
  match s with
  | EmptyString => None
  | String c s' =>
      if is_scheme_char c then scheme_state (buffer ++ String (to_lower c) "") s'
      else if (c =? ":")%char then Some (buffer, s')
      else None
  end.

(** Scheme start state. *)
Definition scheme_start_state (s : string) : option (string * string) :=
  match s with
  | EmptyString => None
  | String c s' =>
      if is_alpha c then scheme_state (String (to_lower c) "") s' else None
  end.

Definition is_special (scheme : string) : bool :=
  existsb (String.eqb scheme) ["ftp"; "file"; "http"; "https"; "ws"; "wss"].

Definition is_slash (c : ascii) : bool := (c =? "/")%char || (c =? "\")%char.

(** The code points that end the authority of a special URL. *)
Definition ends_authority (c : ascii) : bool :=
  is_slash c || (c =? "?")%char || (c =? "#")%char.

(** Special authority slashes and ignore-slashes states. *)
Fixpoint skip_slashes (s : string) : string :=
  match s with
  | EmptyString => EmptyString
  | String c s' => if is_slash c then skip_slashes s' else s
  end.

(** Authority state, as long as no [@] is met: the buffer up to the end of
    the authority. *)
Fixpoint authority (s : string) : string :=
  match s with
  | EmptyString => EmptyString
  | String c s' => if ends_authority c then EmptyString else String c (authority s')
  end.

Fixpoint split_dot (s cur : string) : list string :=
  match s with
  | EmptyString => [cur]
  | String c s' =>
      if (c =? ".")%char then cur :: split_dot s' ""
      else split_dot s' (cur ++ String c "")
  end.

Definition is_domain_char (c : ascii) : bool :=
  is_alpha c || is_digit c || (c =? "-")%char || (c =? ".")%char.

(** A host on which the host parser is an ASCII lowercasing that succeeds:
    letters, digits, hyphens and dots only, no label that starts with
    [xn--], and a last label that starts with a letter (so the host does not
    end in a number). *)
Definition plain_domain (host : string) : bool :=
  let labels := split_dot host "" in
  forallb is_domain_char (list_ascii_of_string host)
  && forallb (fun l => negb (String.prefix "xn--" (lowercase l))) labels
  && match last labels "" with
     | EmptyString => false
     | String c _ => is_alpha c
     end.

Definition URL_new (input : string) : parse_result :=
  let s := remove_tab_newline (strip_trailing (strip_leading input)) in
  match scheme_start_state s with
  | None => Invalid
  | Some (scheme, rest) =>
      if is_special scheme then
        if (scheme =? "file")%string then Elsewhere
        else
          let host := authority (skip_slashes rest) in
          if (host =? "")%string then Invalid
          else if plain_domain host then Parsed scheme
          else Elsewhere
      else if String.prefix "//" rest then Elsewhere
      else Parsed scheme
  end.

End Url.

(** [isValidUrl(url)]: whether [new URL(url)] returns rather than throws.
    [elsewhere] tells it for the inputs on which [Url.URL_new] is
    [Elsewhere]; everything below holds whatever [elsewhere] is. *)
Definition isValidUrl (elsewhere : string -> bool) (url : string) : bool :=
  match Url.URL_new url with
  | Url.Parsed _ => true
  | Url.Invalid => false
  | Url.Elsewhere => elsewhere url
  end.

(** ** The links table (db/init.js) *)

Module Db.

(** A row of [links]. *)
Record Link : Type := mkLink {
  id : Z;                     (* SERIAL PRIMARY KEY *)
  short_code : string;        (* VARCHAR(8) UNIQUE NOT NULL *)
  target_url : string;        (* TEXT NOT NULL *)
  total_clicks : Z;           (* INTEGER DEFAULT 0 *)
  creation_count : Z;         (* INTEGER DEFAULT 1 *)
  last_clicked : option Z;    (* TIMESTAMP, NULL until the first click *)
  created_at : Z;             (* TIMESTAMP DEFAULT NOW() *)
  updated_at : Z              (* TIMESTAMP DEFAULT NOW() *)
}.

(** The table and the sequence behind its SERIAL column: [next_id] is the
    value the sequence gives next. *)
Record Store : Type := mkStore {
  rows : list Link;
  next_id : Z
}.

(** The table [initDb] creates. *)
Definition empty : Store := {| rows := []; next_id := 1 |}.

(** The largest value of an INTEGER column, and the last value of the
    sequence of a SERIAL column. *)
Definition integer_max : Z := 2147483647.

(** The values an INTEGER column holds. *)
Definition in_integer (z : Z) : bool :=
  (- integer_max - 1 <=? z) && (z <=? integer_max).

(** The string holds the character U+0000, which no text value of
    PostgreSQL may hold. *)
Fixpoint has_nul (s : string) : bool :=
  match s with
  | EmptyString => false
  | String c s' => (c =? "000")%char || has_nul s'
  end.

(** The statements below are the calls of [pool.query] with their
    parameters.  A text parameter is read before the statement runs: when
    it holds U+0000 the statement raises (the promise is rejected; [None]
    here) and the table is as it was. *)

(** The rows whose [short_code] is [code]; the column is UNIQUE, so that
    their order is no matter. *)
Definition select_by_code (code : string) (st : Store) : list Link :=
  filter (fun r => (short_code r =? code)%string) (rows st).

(** [SELECT ... FROM links WHERE short_code = $1]. *)
Definition select_link (code : string) (st : Store) : option (list Link) :=
  if has_nul code then None else Some (select_by_code code st).

(** The order in which a SELECT with no ORDER BY returns the rows it
    selects: SQL leaves it to the database, which may return the rows of a
    table in another order after an UPDATE has rewritten one of them. *)
Record row_order : Type := mk_row_order {
  scan : list Link -> list Link;
  scan_perm : forall l, Permutation (scan l) l
}.

(** [SELECT ... FROM links WHERE target_url = $1]: the rows with that
    URL, in the order the database returns them. *)
Definition select_by_url (o : row_order) (url : string) (st : Store)
  : option (list Link) :=
  if has_nul url then None
  else Some (scan o (filter (fun r => (target_url r =? url)%string) (rows st))).

(** The row an INSERT of the create handler builds: [last_clicked] is not
    among its columns and stays NULL. *)
Definition new_row (i now : Z) (code url : string) (clicks count : Z) : Link :=
  {| id := i; short_code := code; target_url := url;
     total_clicks := clicks; creation_count := count;
     last_clicked := None; created_at := now; updated_at := now |}.

(** Whether a row of [idx_target_url] can hold the URL.  A B-tree index row
    is limited to 2704 bytes; a URL of at most 1300 characters is within it
    however it is encoded.  A longer one is compressed first, and fits or
    not by what the compression makes of it: [beyond] tells. *)
Definition index_fits (beyond : string -> bool) (url : string) : bool :=
  (String.length url <=? 1300)%nat || beyond url.

(** [INSERT INTO links (short_code, target_url, total_clicks,
    creation_count, created_at, updated_at) VALUES ($1, $2, $3, $4, NOW(),
    NOW()) RETURNING ...].  The statement raises ([None]) on a code or a
    URL that holds U+0000 and when the sequence is at its end, and then
    changes nothing; it also raises on a code longer than the column or
    already in the table, and on a URL that does not fit the index, and
    then the id it drew from the sequence is spent. *)
Definition insert (beyond : string -> bool) (now : Z) (code url : string)
  (clicks count : Z) (st : Store) : option (list Link) * Store :=
  let row := new_row (next_id st) now code url clicks count in
  if has_nul code || has_nul url then (None, st)
  else if integer_max <? next_id st then (None, st)
  else if (8 <? String.length code)%nat
          || existsb (fun r => (short_code r =? code)%string) (rows st)
          || negb (index_fits beyond url)
  then (None, {| rows := rows st; next_id := next_id st + 1 |})
  else (Some [row], {| rows := (rows st ++ [row])%list; next_id := next_id st + 1 |}).

(** The SET clause of the creation-count statement; the statement checks
    the sum against the range of the column. *)
Definition bump_creation (now : Z) (r : Link) : Link :=
  {| id := id r; short_code := short_code r; target_url := target_url r;
     total_clicks := total_clicks r; creation_count := creation_count r + 1;
     last_clicked := last_clicked r; created_at := created_at r;
     updated_at := now |}.

(** The SET clause of the redirect statement; the statement checks the sum
    against the range of the column. *)
Definition bump_clicks (now : Z) (r : Link) : Link :=
  {| id := id r; short_code := short_code r; target_url := target_url r;
     total_clicks := total_clicks r + 1; creation_count := creation_count r;
     last_clicked := Some now; created_at := created_at r;
     updated_at := updated_at r |}.

(** The rows that satisfy [cond] rewritten by [set], the others kept: the
    rewritten rows and the table with them. *)
Definition update (cond : Link -> bool) (set : Link -> Link) (st : Store)
  : list Link * Store :=
  (map set (filter cond (rows st)),
   {| rows := map (fun r => if cond r then set r else r) (rows st);
      next_id := next_id st |}).

(** [UPDATE links SET creation_count = creation_count + 1, updated_at =
    NOW() WHERE id = $1 RETURNING ...].  The statement raises ([None]), and
    changes nothing, when a new count is out of the range of INTEGER. *)
Definition update_creation_count (now : Z) (i : Z) (st : Store)
  : option (list Link) * Store :=
  let (result, st') := update (fun r => id r =? i) (bump_creation now) st in
  if forallb (fun r => in_integer (creation_count r)) result
  then (Some result, st') else (None, st).

(** [UPDATE links SET total_clicks = total_clicks + 1, last_clicked = NOW()
    WHERE short_code = $1 RETURNING *].  The statement raises ([None]), and
    changes nothing, on a code that holds U+0000 and when a new count is
    out of the range of INTEGER. *)
Definition update_clicks (now : Z) (code : string) (st : Store)
  : option (list Link) * Store :=
  let (result, st') :=
    update (fun r => (short_code r =? code)%string) (bump_clicks now) st in
  if has_nul code then (None, st)
  else if forallb (fun r => in_integer (total_clicks r)) result
  then (Some result, st') else (None, st).

(** [DELETE FROM links WHERE short_code = $1 RETURNING *]; it raises on a
    code that holds U+0000. *)
Definition delete (code : string) (st : Store) : option (list Link) * Store :=
  if has_nul code then (None, st)
  else (Some (select_by_code code st),
        {| rows := filter (fun r => negb (short_code r =? code)%string) (rows st);
           next_id := next_id st |}).

End Db.

(** ** The route handlers of server.js *)

Module Server.

Import Helpers Db.

(** What a handler sends. *)
Inductive response : Type :=
| Created (row : option Link)       (* 201, [result.rows[0]] *)
| Incremented (row : option Link)   (* 200, [updated.rows[0]] and the message *)
| InvalidURL                        (* 400 [Invalid URL] *)
| InvalidCode                       (* 400 [Code must be 6-8 alphanumeric characters] *)
| CodeConflict                      (* 409 [Code already exists] *)
| Stats (row : option Link)         (* 200, [result.rows[0]] *)
| Deleted                           (* 200 [Link deleted successfully] *)
| Redirect (url : string)           (* 302 to [link.target_url] *)
| NotFound                          (* 404 *)
| InternalError.                    (* 500, sent by the [catch] *)

(** The run of the create handler: it answers and leaves a store, or it is
    still in its [while] loop when the fuel is spent. *)
Inductive run : Type :=
| Returns (r : response) (st : Store)
| Looping.

(** The [while (codeExists)] loop of the create handler, entered with the
    candidate [code] and the next draw at position [k]: one iteration per
    unit of fuel, [None] when the fuel is spent before a candidate is free.
    A candidate is made of characters of [chars]: the parameter of the
    SELECT of the loop never holds U+0000, and the statement returns the
    rows [select_by_code] gives. *)
Fixpoint unique_code (fuel : nat) (g : randomness) (code : string) (k : nat)
  (st : Store) : option string :=
  match fuel with
  | O => None
  | S fuel' =>
      if (List.length (select_by_code code st) =? 0)%nat then Some code
      else
        let (code', k') := generateShortCode g k in
        unique_code fuel' g code' k' st
  end.

(** The allocation of a code by the create handler:
    [let code = generateShortCode()] followed by the loop. *)
Definition allocate (fuel : nat) (g : randomness) (st : Store) : option string :=
  let (code, k) := generateShortCode g 0 in
  unique_code fuel g code k st.

(** The [n]-th code [generateShortCode] returns, counting from 0, when the
    first call draws at position [k]; with the position after it. *)
Fixpoint candidate (g : randomness) (n k : nat) : string * nat :=
  match n with
  | O => generateShortCode g k
  | S n' => candidate g n' (snd (generateShortCode g k))
  end.

(** The INSERT of the create handler and the answer that follows it; the
    [catch] answers 500 when the statement raises. *)
Definition insert_and_answer (beyond : string -> bool) (now : Z)
  (code url : string) (st : Store) : run :=
  match insert beyond now code url 0 1 st with
  | (None, st') => Returns InternalError st'
  | (Some result, st') => Returns (Created (hd_error result)) st'
  end.

(** [app.post('/api/links')]. *)
Definition create (elsewhere beyond : string -> bool) (o : row_order)
  (fuel : nat) (g : randomness) (now : Z) (target_url short_code : js_value)
  (st : Store) : run :=
  if negb (truthy target_url) || negb (isValidUrl elsewhere (str target_url))
  then Returns InvalidURL st
  else if truthy short_code && negb (isValidCode (str short_code))
  then Returns InvalidCode st
  else if truthy short_code then
    match select_link (str short_code) st with
    | None => Returns InternalError st
    | Some existing =>
        if (0 <? List.length existing)%nat then Returns CodeConflict st
        else insert_and_answer beyond now (str short_code) (str target_url) st
    end
  else
    match select_by_url o (str target_url) st with
    | None => Returns InternalError st
    | Some (first :: _) =>
        match update_creation_count now (id first) st with
        | (None, st') => Returns InternalError st'
        | (Some updated, st') => Returns (Incremented (hd_error updated)) st'
        end
    | Some [] =>
        match allocate fuel g st with
        | None => Looping
        | Some code => insert_and_answer beyond now code (str target_url) st
        end
    end.

(** [app.get('/api/links/:code')]. *)
Definition get (code : string) (st : Store) : response * Store :=
  match select_link code st with
  | None => (InternalError, st)
  | Some result =>
      if (List.length result =? 0)%nat then (NotFound, st)
      else (Stats (hd_error result), st)
  end.

(** [app.delete('/api/links/:code')]. *)
Definition delete (code : string) (st : Store) : response * Store :=
  match Db.delete code st with
  | (None, st') => (InternalError, st')
  | (Some result, st') =>
      if (List.length result =? 0)%nat then (NotFound, st')
      else (Deleted, st')
  end.

(** [app.get('/:code')]: the redirect, which records the click. *)
Definition recordClick (now : Z) (code : string) (st : Store) : response * Store :=
  match update_clicks now code st with
  | (None, st') => (InternalError, st')
  | (Some [], st') => (NotFound, st')
  | (Some (link :: _), st') => (Redirect (Db.target_url link), st')
  end.

(** One request served. *)
Inductive step (elsewhere beyond : string -> bool) : Store -> Store -> Prop :=
| step_create o fuel g now url code st r st' :
    create elsewhere beyond o fuel g now url code st = Returns r st' ->
    step elsewhere beyond st st'
| step_get code st :
    step elsewhere beyond st (snd (get code st))
| step_delete code st :
    step elsewhere beyond st (snd (delete code st))
| step_click now code st :
    step elsewhere beyond st (snd (recordClick now code st)).

(** The stores the server can be in: from the empty table, by requests. *)
Inductive reachable (elsewhere beyond : string -> bool) : Store -> Prop :=
| reach_empty : reachable elsewhere beyond empty
| reach_step st st' :
    reachable elsewhere beyond st -> step elsewhere beyond st st' ->
    reachable elsewhere beyond st'.

End Server.

(** ** The vocabulary of the specification *)

Module Spec.

Import Helpers Db Server.

(** The 62-character alphanumeric alphabet: 26 lowercase letters, 26
    uppercase letters and 10 digits. *)
Definition alphabet : list ascii :=
  list_ascii_of_string
    "abcdefghijklmnopqrstuvwxyzABCDEFGHIJKLMNOPQRSTUVWXYZ0123456789".

(** A well-formed code: 6 to 8 characters, every one of the alphabet. *)
Definition well_formed (code : string) : Prop :=
  (6 <= String.length code <= 8)%nat
  /\ Forall (fun c => In c alphabet) (list_ascii_of_string code).

(** No active Link has this code. *)
Definition no_link (code : string) (st : Store) : Prop :=
  forall r, In r (rows st) -> short_code r <> code.

(** At most one Link per code. *)
Definition unique_codes (st : Store) : Prop :=
  NoDup (map short_code (rows st)).

(** The answers that report a failure. *)
Definition failure (r : response) : bool :=
  match r with
  | InvalidURL | InvalidCode | CodeConflict | NotFound | InternalError => true
  | Created _ | Incremented _ | Stats _ | Deleted | Redirect _ => false
  end.

(** [chosen] is the Link a create without a custom code finds for [url]:
    the first row the lookup by URL returns, which is a row of the table
    with that URL, [before] and [after] being the rows around it. *)
Definition found_for_url (o : row_order) (url : string) (st : Store)
  (before : list Link) (chosen : Link) (after : list Link) : Prop :=
  rows st = (before ++ chosen :: after)%list
  /\ target_url chosen = url
  /\ exists rest, select_by_url o url st = Some (chosen :: rest).

(** What the specification says of a code that no Link has: each lookup
    answers NotFound and changes nothing. *)
Definition absent_is_not_found (code : string) (st : Store) : Prop :=
  no_link code st ->
  get code st = (NotFound, st)
  /\ delete code st = (NotFound, st)
  /\ forall now, recordClick now code st = (NotFound, st).

(** What the specification says of a create without a custom code for a
    URL that a Link has: it answers with a Link of that URL, its
    [creation_count] greater by 1. *)
Definition resubmission_increments (elsewhere beyond : string -> bool)
  (o : row_order) (fuel : nat) (g : randomness) (now : Z) (url : string)
  (st : Store) : Prop :=
  exists l st',
    In l (rows st) /\ target_url l = url
    /\ create elsewhere beyond o fuel g now (Some url) None st
       = Returns (Incremented (Some (bump_creation now l))) st'.

(** The create handler never leaves its loop. *)
Definition allocation_diverges (g : randomness) (st : Store) : Prop :=
  forall fuel, allocate fuel g st = None.

(** The click statement stamps [updated_at] with the time of the click. *)
Definition click_stamps_updated_at (now : Z) (code : string) (st : Store) : Prop :=
  forall r, In r (rows (snd (recordClick now code st))) ->
            short_code r = code -> updated_at r = now.

End Spec.

(** ** Sample stores, random sequences and row orders *)

Module Examples.

Import Db Server.

(** A URL constructor that throws wherever [Url.URL_new] is [Elsewhere]. *)
Definition rejecting : string -> bool := fun _ => false.

(** An index that takes no URL of more than 1300 characters. *)
Definition short_rows : string -> bool := fun _ => false.

(** The rows returned in the order of the table. *)
Definition table_order : row_order :=
  {| scan := fun l => l; scan_perm := @Permutation_refl Link |}.

(** The rows returned in the reverse of the order of the table. *)
Definition last_row_first : row_order :=
  {| scan := @rev Link; scan_perm := fun l => Permutation_sym (Permutation_rev l) |}.

Definition zero : random_value := {| rv := 0; rv_range := eq_refl |}.

Definition half : random_value := {| rv := 1 # 2; rv_range := eq_refl |}.

(** [Math.random()] returning 0 at every call. *)
Definition zeros : randomness := fun _ => zero.

(** [Math.random()] returning 0 for the seven calls of the first
    [generateShortCode()], and 0.5 from then on. *)
Definition zeros_then_halves : randomness :=
  fun k => if (k <? 7)%nat then zero else half.

Definition google : Link :=
  {| id := 1; short_code := "AAAAAA"; target_url := "https://google.com";
     total_clicks := 0; creation_count := 1; last_clicked := None;
     created_at := 10; updated_at := 10 |}.

(** The store after [https://google.com] was submitted to an empty table
    at time 10, with no custom code and [Math.random()] returning 0: the
    code generated is [AAAAAA]. *)
Definition one_link : Store := {| rows := [google]; next_id := 2 |}.

(** [google] after [c] clicks, the clicks made at time 20. *)
Definition clicked (c : Z) : Link :=
  {| id := 1; short_code := "AAAAAA"; target_url := "https://google.com";
     total_clicks := c; creation_count := 1;
     last_clicked := if c =? 0 then None else Some 20;
     created_at := 10; updated_at := 10 |}.

(** [google] after its URL was submitted until its count is [c], the
    later submissions made at time 20. *)
Definition resubmitted (c : Z) : Link :=
  {| id := 1; short_code := "AAAAAA"; target_url := "https://google.com";
     total_clicks := 0; creation_count := c; last_clicked := None;
     created_at := 10; updated_at := if c =? 1 then 10 else 20 |}.

Definition one_clicked (c : Z) : Store := {| rows := [clicked c]; next_id := 2 |}.

Definition one_resubmitted (c : Z) : Store :=
  {| rows := [resubmitted c]; next_id := 2 |}.

(** [one_link] after Links were created and deleted until the sequence
    is at [n]. *)
Definition one_link_at (n : Z) : Store := {| rows := [google]; next_id := n |}.

(** A second Link for the URL of [google], under a custom code. *)
Definition google_again : Link :=
  {| id := 2; short_code := "BBBBBB"; target_url := "https://google.com";
     total_clicks := 0; creation_count := 1; last_clicked := None;
     created_at := 20; updated_at := 20 |}.

Definition two_links : Store := {| rows := [google; google_again]; next_id := 3 |}.

(** [two_links] when the first Link is at the capacity of its count. *)
Definition two_links_full : Store :=
  {| rows := [resubmitted integer_max; google_again]; next_id := 3 |}.

(** The code [a<U+0000>b], as [GET /a%00b] passes it to the handler. *)
Definition nul_code : string := String "a" (String "000" "b").

(** A URL that the URL constructor accepts, with U+0000 in its path. *)
Definition nul_url : string := "https://a.com/a" ++ String "000" "b".

End Examples.

(** ** The invariant of the reachable stores *)

Record store_ok (elsewhere beyond : string -> bool) (st : Db.Store) : Prop := {
  ok_codes : NoDup (map Db.short_code (Db.rows st));
  ok_valid : Forall (fun r => Helpers.isValidCode (Db.short_code r) = true) (Db.rows st);
  ok_ids : NoDup (map Db.id (Db.rows st));
  ok_seq : Forall (fun r => Db.id r < Db.next_id st) (Db.rows st);
  ok_text : Forall (fun r => Db.has_nul (Db.target_url r) = false) (Db.rows st);
  ok_index : Forall (fun r => Db.index_fits beyond (Db.target_url r) = true) (Db.rows st);
  ok_clicks : Forall (fun r => 0 <= Db.total_clicks r <= Db.integer_max) (Db.rows st);
  ok_counts : Forall (fun r => 1 <= Db.creation_count r <= Db.integer_max) (Db.rows st)
}.

(** The answers of the create handler, by the path it takes. *)
Inductive create_outcome (elsewhere beyond : string -> bool) (o : Db.row_order)
  (now : Z) (url sc : js_value) (st : Db.Store)
  : Server.response -> Db.Store -> Prop :=
| co_invalid_url :
    truthy url = false \/ isValidUrl elsewhere (str url) = false ->
    create_outcome elsewhere beyond o now url sc st Server.InvalidURL st
| co_invalid_code :
    isValidUrl elsewhere (str url) = true ->
    truthy sc = true -> Helpers.isValidCode (str sc) = false ->
    create_outcome elsewhere beyond o now url sc st Server.InvalidCode st
| co_conflict :
    isValidUrl elsewhere (str url) = true ->
    truthy sc = true -> Helpers.isValidCode (str sc) = true ->
    Db.select_by_code (str sc) st <> [] ->
    create_outcome elsewhere beyond o now url sc st Server.CodeConflict st
| co_created code :
    isValidUrl elsewhere (str url) = true ->
    Helpers.isValidCode code = true ->
    Db.select_by_code code st = [] ->
    (if truthy sc then code = str sc
     else Db.select_by_url o (str url) st = Some []) ->
    Db.has_nul (str url) = false ->
    Db.index_fits beyond (str url) = true ->
    Db.next_id st <= Db.integer_max ->
    create_outcome elsewhere beyond o now url sc st
      (Server.Created (Some (Db.new_row (Db.next_id st) now code (str url) 0 1)))
      {| Db.rows := (Db.rows st ++ [Db.new_row (Db.next_id st) now code (str url) 0 1])%list;
         Db.next_id := Db.next_id st + 1 |}
| co_incremented first rest :
    isValidUrl elsewhere (str url) = true ->
    truthy sc = false ->
    Db.select_by_url o (str url) st = Some (first :: rest) ->
    forallb (fun r => Db.in_integer (Db.creation_count r))
            (fst (Db.update (fun r => Db.id r =? Db.id first) (Db.bump_creation now) st))
    = true ->
    create_outcome elsewhere beyond o now url sc st
      (Server.Incremented
         (hd_error (fst (Db.update (fun r => Db.id r =? Db.id first)
                                   (Db.bump_creation now) st))))
      (snd (Db.update (fun r => Db.id r =? Db.id first) (Db.bump_creation now) st))
| co_raised st' :
    isValidUrl elsewhere (str url) = true ->
    Db.rows st' = Db.rows st ->
    Db.next_id st' = Db.next_id st \/ Db.next_id st' = Db.next_id st + 1 ->
    Db.has_nul (str url) = true
    \/ Db.integer_max < Db.next_id st
    \/ Db.index_fits beyond (str url) = false
    \/ (truthy sc = false
        /\ exists first rest,
             Db.select_by_url o (str url) st = Some (first :: rest)
             /\ exists r, In r (Db.rows st) /\ Db.id r = Db.id first
                          /\ Db.in_integer (Db.creation_count r + 1) = false) ->
    create_outcome elsewhere beyond o now url sc st Server.InternalError st'.

(** ** The rest of server.js: the listing, and requests in sequence *)

Module Listing.

Import Db Server.

(** One row put in its place in a list kept by decreasing [created_at];
    among rows of one [created_at] the order is that of the table (SQL
    leaves it open). *)
Fixpoint insert_newest (r : Link) (l : list Link) : list Link :=
  match l with
  | [] => [r]
  | x :: l' =>
      if created_at x <=? created_at r then r :: l else x :: insert_newest r l'
  end.

(** [SELECT * FROM links ORDER BY created_at DESC]. *)
Definition select_all_newest_first (st : Store) : list Link :=
  fold_right insert_newest [] (rows st).

(** [app.get('/api/links')]: the rows it sends, and the store. *)
Definition list_links (st : Store) : list Link * Store :=
  (select_all_newest_first st, st).

(** The redirect of [code] requested once at each of [times], in turn. *)
Fixpoint clicks (times : list Z) (code : string) (st : Store) : Store :=
  match times with
  | [] => st
  | t :: times' => clicks times' code (snd (recordClick t code st))
  end.

(** No request rewrites what identifies a Link, and a counter moves by at
    most one step up: [l'] is [l] after one request. *)
Definition evolves (l l' : Link) : Prop :=
  id l' = id l
  /\ short_code l' = short_code l
  /\ target_url l' = target_url l
  /\ created_at l' = created_at l
  /\ total_clicks l <= total_clicks l' <= total_clicks l + 1
  /\ creation_count l <= creation_count l' <= creation_count l + 1.

(** What the counters of a stored Link always satisfy. *)
Definition counters_ok (l : Link) : Prop :=
  0 <= total_clicks l
  /\ 1 <= creation_count l
  /\ (last_clicked l = None <-> total_clicks l = 0).

End Listing.

(** ** The dashboard (public/script.js) *)

Module Dashboard.

Import Helpers Db.

(** [truncateUrl(url)]. *)
Definition truncateUrl (url : string) : string :=
  let maxLength := 50%nat in
  if (maxLength <? String.length url)%nat
  then (String.substring 0 maxLength url ++ "...")%string
  else url.

(** [String.prototype.includes]: [t] occurs in [s]. *)
Fixpoint includes (s t : string) : bool :=
  String.prefix t s
  || match s with
     | EmptyString => false
     | String _ s' => includes s' t
     end.

(** [handleSearch(e)] on the links loaded in [allLinks], with [value] the
    text of the search box: the links it passes to [renderLinks].
    [toLowerCase] is [String.prototype.toLowerCase]. *)
Definition handleSearch (toLowerCase : string -> string)
  (allLinks : list Link) (value : string) : list Link :=
  let searchTerm := toLowerCase value in
  if negb (truthy (Some searchTerm)) then allLinks
  else
    filter (fun link =>
              includes (toLowerCase (short_code link)) searchTerm
              || includes (toLowerCase (target_url link)) searchTerm)
           allLinks.

(** What [handleCreateLink] does with the form: an error shown under a
    field, or a POST to [/api/links]. *)
Inductive submission : Type :=
| UrlError (message : string)
| CodeError (message : string)
| Post (target_url short_code : js_value).

(** [handleCreateLink(e)] from the trimmed values of the two fields to the
    request it sends: [JSON.stringify] drops a [short_code] that is
    [undefined].  The browser's URL constructor is taken to be the
    server's. *)
Definition handleCreateLink (elsewhere : string -> bool)
  (targetUrl shortCode : string) : submission :=
  if negb (truthy (Some targetUrl)) then UrlError "URL is required"
  else if negb (isValidUrl elsewhere targetUrl)
  then UrlError "Please enter a valid URL (including http:// or https://)"
  else if truthy (Some shortCode) && negb (isValidCode shortCode)
  then CodeError "Code must be 6-8 alphanumeric characters (A-Z, a-z, 0-9)"
  else Post (Some targetUrl) (if truthy (Some shortCode) then Some shortCode else None).

End Dashboard.

(** ** The stats page (public/stats.js) *)

Module StatsPage.

(** [String.prototype.split] on a one-character separator; [cur] is the
    piece being read. *)
Fixpoint split (sep : ascii) (s cur : string) : list string :=
  match s with
  | EmptyString => [cur]
  | String c s' =>
      if (c =? sep)%char then cur :: split sep s' ""
      else split sep s' (cur ++ String c "")
  end.

(** The head of [loadStats()]: the code read off [window.location.pathname],
    [None] when it is empty and the page shows [Invalid link code] without
    asking the server. *)
Definition loadStats_code (pathname : string) : option string :=
  let pathParts := split "/" pathname "" in
  let code := nth (List.length pathParts - 1) pathParts "" in
  if negb (truthy (Some code)) then None else Some code.

End StatsPage.

(** * Properties *)

Import Helpers Db Server.

Section Properties.

(** What the URL constructor does outside the part of it that is modelled. *)
Variable elsewhere : string -> bool.

(** Which URLs of more than 1300 characters fit a row of the index. *)
Variable beyond : string -> bool.

(** ** The code allocator *)

Lemma class_alnum_alphabet (c : ascii) :
  class_alnum c = existsb (Ascii.eqb c) Spec.alphabet.
Proof.
  destruct c as [[] [] [] [] [] [] [] []]; vm_compute; reflexivity.
Qed.

Lemma class_alnum_In (c : ascii) :
  class_alnum c = true <-> In c Spec.alphabet.
Proof.
  rewrite class_alnum_alphabet, existsb_exists. split.
  - intros [x [Hx Heq]]. apply Ascii.eqb_eq in Heq. now subst.
  - intros H. exists c. split; [assumption | apply Ascii.eqb_refl].
Qed.

Lemma test_repeat_spec (cls : ascii -> bool) (s : string) :
  forall lo hi,
    test_repeat cls lo hi s = true
    <-> (lo <= String.length s <= hi)%nat
        /\ Forall (fun c => cls c = true) (list_ascii_of_string s).
Proof.
  induction s as [| c s IH]; intros lo hi;
    cbn [test_repeat String.length list_ascii_of_string].
  - rewrite Nat.eqb_eq. split.
    + intros ->. split; [lia | constructor].
    + intros [H _]. lia.
  - destruct hi as [| hi'].
    + split; [discriminate | intros [H _]; lia].
    + rewrite andb_true_iff, IH. split.
      * intros [Hc [Hlen Hall]]. split; [lia | now constructor].
      * intros [Hlen Hall]. inversion Hall; subst. repeat split; try assumption; lia.
Qed.

Lemma isValidCode_true_iff (code : string) :
  isValidCode code = true <-> Spec.well_formed code.
Proof.
  unfold isValidCode, Spec.well_formed. rewrite test_repeat_spec.
  split; intros [Hlen Hall]; (split; [exact Hlen |]);
    eapply Forall_impl; try exact Hall; intros c Hc; now apply class_alnum_In.
Qed.

(** C6: [isValidCode] (the specification's [isWellFormed]) returns true for
    exactly the strings of 6 to 8 characters of the alphanumeric alphabet,
    and false for every other string. *)
Theorem isValidCode_exactly_well_formed :
  forall code : string,
    (isValidCode code = true <-> Spec.well_formed code)
    /\ (isValidCode code = false <-> ~ Spec.well_formed code).
Proof.
  intros code. pose proof (isValidCode_true_iff code) as H.
  split; [exact H |].
  rewrite <- H. destruct (isValidCode code); split; intros; congruence.
Qed.

Lemma append_assoc (a b c : string) : ((a ++ b) ++ c = a ++ (b ++ c))%string.
Proof. induction a as [| x a IH]; simpl; [reflexivity | now rewrite IH]. Qed.

Lemma append_empty_r (a : string) : (a ++ "" = a)%string.
Proof. induction a as [| x a IH]; simpl; [reflexivity | now rewrite IH]. Qed.

(** [Math.floor(Math.random() * n)] is an index below [n]. *)
Lemma floor_random_range (r : random_value) (n : Z) :
  0 < n -> 0 <= Math_floor (rv r * inject_Z n) < n.
Proof.
  intros Hn. destruct r as [[p q] H]. cbn [rv].
  apply andb_true_iff in H. destruct H as [H0 H1].
  apply negb_true_iff in H1.
  unfold Qle_bool in H0, H1. cbn [Qnum Qden] in H0, H1.
  apply Z.leb_le in H0. apply Z.leb_gt in H1.
  unfold Math_floor, Qfloor, Qmult, inject_Z. cbn [Qnum Qden].
  assert (Hq : Z.pos (q * 1) = Z.pos q) by (now rewrite Pos.mul_1_r).
  rewrite Hq. split.
  - apply Z.div_pos; [nia | lia].
  - apply Z.div_lt_upper_bound; [lia | nia].
Qed.

(** Every index below 62 selects a character of [chars], and that
    character is alphanumeric. *)
Lemma charAt_chars (i : Z) :
  0 <= i < 62 ->
  exists c, charAt chars i = String c "" /\ In c Spec.alphabet.
Proof.
  intros Hi. unfold charAt.
  destruct (i <? 0) eqn:Hneg; [apply Z.ltb_lt in Hneg; lia |].
  assert (Hn : (Z.to_nat i < 62)%nat) by lia.
  generalize dependent (Z.to_nat i). intros n Hn.
  do 62 (destruct n as [| n];
         [eexists; split; [reflexivity | apply class_alnum_In; reflexivity] |]).
  lia.
Qed.

(** The loop of [generateShortCode] appends [n] alphanumeric characters and
    makes [n] draws. *)
Lemma append_random_spec (g : randomness) (n : nat) :
  forall code k,
  exists s,
    append_random g n code k = ((code ++ s)%string, (k + n)%nat)
    /\ String.length s = n
    /\ Forall (fun c => In c Spec.alphabet) (list_ascii_of_string s).
Proof.
  induction n as [| n IH]; intros code k; cbn [append_random].
  - exists "". rewrite append_empty_r, Nat.add_0_r. repeat split. constructor.
  - destruct (charAt_chars
                (Math_floor (rv (g k) * inject_Z (Z.of_nat (String.length chars)))))
      as [c [Hc Hin]].
    { apply (floor_random_range (g k) 62). lia. }
    rewrite Hc.
    destruct (IH (code ++ String c "")%string (S k)) as [s [Hs [Hlen Hall]]].
    exists (String c s). rewrite Hs, append_assoc. cbn.
    repeat split.
    + f_equal. lia.
    + now rewrite Hlen.
    + now constructor.
Qed.

Lemma generateShortCode_spec (g : randomness) (k : nat) :
  (6 <= String.length (fst (generateShortCode g k)) <= 8)%nat
  /\ Forall (fun c => In c Spec.alphabet)
            (list_ascii_of_string (fst (generateShortCode g k))).
Proof.
  unfold generateShortCode.
  pose proof (floor_random_range (g k) 3 ltac:(lia)) as Hlen.
  change (inject_Z 3) with 3%Q in Hlen.
  set (len := Math_floor (rv (g k) * 3)) in *.
  destruct (append_random_spec g (Z.to_nat (len + 6)) "" (S k))
    as [s [Hs [Hl Hall]]].
  rewrite Hs. cbn [fst append]. split; [lia | exact Hall].
Qed.

Lemma generateShortCode_valid (g : randomness) (k : nat) :
  isValidCode (fst (generateShortCode g k)) = true.
Proof. apply isValidCode_true_iff, generateShortCode_spec. Qed.

(** C7: every string [generateShortCode] returns has 6, 7 or 8 characters,
    each of the 62-character alphanumeric alphabet, and is therefore
    accepted by [isValidCode]. *)
Theorem generateShortCode_well_formed :
  forall (g : randomness) (k : nat),
    let code := fst (generateShortCode g k) in
    (String.length code = 6 \/ String.length code = 7 \/ String.length code = 8)%nat
    /\ Forall (fun c => In c Spec.alphabet) (list_ascii_of_string code)
    /\ isValidCode code = true.
Proof.
  intros g k code. subst code.
  destruct (generateShortCode_spec g k) as [Hlen Hall].
  split; [lia |]. split; [exact Hall | apply generateShortCode_valid].
Qed.

(** ** Queries on the table *)

Lemma store_eta (st : Store) : {| rows := rows st; next_id := next_id st |} = st.
Proof. now destruct st. Qed.

Lemma filter_none {A} (f : A -> bool) (l : list A) :
  (forall x, In x l -> f x = false) -> filter f l = [].
Proof.
  induction l as [| x l IH]; intros H; cbn; [reflexivity |].
  rewrite (H x (or_introl eq_refl)). apply IH. intros y Hy. apply H. now right.
Qed.

Lemma filter_all {A} (f : A -> bool) (l : list A) :
  (forall x, In x l -> f x = true) -> filter f l = l.
Proof.
  induction l as [| x l IH]; intros H; cbn; [reflexivity |].
  rewrite (H x (or_introl eq_refl)). f_equal. apply IH. intros y Hy. apply H. now right.
Qed.

Lemma filter_nil_inv {A} (f : A -> bool) (l : list A) :
  filter f l = [] -> forall x, In x l -> f x = false.
Proof.
  intros H x Hx. destruct (f x) eqn:Hf; [| reflexivity].
  assert (Hin : In x (filter f l)) by (apply filter_In; now split).
  rewrite H in Hin. destruct Hin.
Qed.

Lemma map_unless {A} (cond : A -> bool) (set : A -> A) (l : list A) :
  (forall x, In x l -> cond x = false) ->
  map (fun r => if cond r then set r else r) l = l.
Proof.
  induction l as [| x l IH]; intros H; cbn; [reflexivity |].
  rewrite (H x (or_introl eq_refl)). f_equal. apply IH. intros y Hy. apply H. now right.
Qed.

Lemma no_link_select (code : string) (st : Store) :
  Spec.no_link code st <-> select_by_code code st = [].
Proof.
  unfold Spec.no_link, select_by_code. split.
  - intros H. apply filter_none. intros r Hr. apply String.eqb_neq. now apply H.
  - intros H r Hr. apply String.eqb_neq. revert r Hr. now apply filter_nil_inv.
Qed.

Lemma no_link_existsb (code : string) (st : Store) :
  select_by_code code st = [] ->
  existsb (fun r => (short_code r =? code)%string) (rows st) = false.
Proof.
  intros H. destruct (existsb _ _) eqn:E; [| reflexivity].
  apply existsb_exists in E. destruct E as [r [Hr Heq]].
  unfold select_by_code in H. now rewrite (filter_nil_inv _ _ H r Hr) in Heq.
Qed.

(** Whatever the order of the rows returned, no row or one row is returned
    as it is. *)
Lemma scan_nil (o : row_order) : scan o [] = [].
Proof. apply Permutation_nil. symmetry. apply scan_perm. Qed.

Lemma scan_one (o : row_order) (r : Link) : scan o [r] = [r].
Proof. apply Permutation_length_1_inv. symmetry. apply scan_perm. Qed.

(** ** Text parameters *)

(** A character of the alphabet is not U+0000. *)
Lemma has_nul_chars (s : string) :
  Forall (fun c => class_alnum c = true) (list_ascii_of_string s) ->
  has_nul s = false.
Proof.
  induction s as [| c s IH]; cbn; intros H; [reflexivity |].
  inversion H as [| ? ? Hc Hs]; subst. rewrite (IH Hs), orb_false_r.
  destruct (Ascii.eqb_spec c "000") as [-> | _]; [discriminate Hc | reflexivity].
Qed.

(** A well-formed code is a text parameter the database takes. *)
Lemma has_nul_code (code : string) :
  isValidCode code = true -> has_nul code = false.
Proof.
  unfold isValidCode. rewrite test_repeat_spec. intros [_ H]. now apply has_nul_chars.
Qed.

Lemma select_link_runs (code : string) (st : Store) :
  has_nul code = false -> select_link code st = Some (select_by_code code st).
Proof. intros H. unfold select_link. now rewrite H. Qed.

(** On a code with U+0000 the statement of each lookup raises, and the
    handler answers 500 from its [catch]. *)
Lemma get_raises (code : string) (st : Store) :
  has_nul code = true -> get code st = (InternalError, st).
Proof. intros H. unfold get, select_link. now rewrite H. Qed.

Lemma delete_raises (code : string) (st : Store) :
  has_nul code = true -> delete code st = (InternalError, st).
Proof. intros H. unfold delete, Db.delete. now rewrite H. Qed.

Lemma recordClick_raises (now : Z) (code : string) (st : Store) :
  has_nul code = true -> recordClick now code st = (InternalError, st).
Proof. intros H. unfold recordClick, update_clicks, update. now rewrite H. Qed.

(** On any other code that no row holds, the three lookups answer 404 and
    leave the table as it was. *)
Lemma get_absent (code : string) (st : Store) :
  has_nul code = false -> Spec.no_link code st -> get code st = (NotFound, st).
Proof.
  intros Hc H. apply no_link_select in H. unfold get.
  now rewrite (select_link_runs _ _ Hc), H.
Qed.

Lemma delete_absent (code : string) (st : Store) :
  has_nul code = false -> Spec.no_link code st -> delete code st = (NotFound, st).
Proof.
  intros Hc H. pose proof H as Hsel. apply no_link_select in Hsel.
  unfold delete, Db.delete. rewrite Hc, Hsel. cbn.
  rewrite filter_all, store_eta; [reflexivity |].
  intros r Hr. apply negb_true_iff, String.eqb_neq. now apply H.
Qed.

Lemma update_clicks_absent (now : Z) (code : string) (st : Store) :
  has_nul code = false -> Spec.no_link code st ->
  update_clicks now code st = (Some [], st).
Proof.
  intros Hc H. pose proof H as Hsel. apply no_link_select in Hsel.
  unfold update_clicks, update. unfold select_by_code in Hsel. rewrite Hc, Hsel. cbn.
  rewrite map_unless, store_eta; [reflexivity |].
  intros r Hr. apply String.eqb_neq. now apply H.
Qed.

Lemma recordClick_absent (now : Z) (code : string) (st : Store) :
  has_nul code = false -> Spec.no_link code st ->
  recordClick now code st = (NotFound, st).
Proof.
  intros Hc H. unfold recordClick.
  now rewrite (update_clicks_absent now code st Hc H).
Qed.

(** A code that fails the pattern is absent from a table whose codes all
    pass it. *)
Lemma malformed_absent (code : string) (st : Store) :
  Forall (fun r => isValidCode (short_code r) = true) (rows st) ->
  isValidCode code = false -> Spec.no_link code st.
Proof.
  intros Hvalid Hbad r Hr E. rewrite Forall_forall in Hvalid.
  specialize (Hvalid r Hr). rewrite E in Hvalid. congruence.
Qed.

(** ** The create handler, path by path *)

Lemma isValidCode_length (code : string) :
  isValidCode code = true -> (6 <= String.length code <= 8)%nat.
Proof. intros H. now apply isValidCode_true_iff in H as [Hlen _]. Qed.

Lemma isValidCode_truthy (code : string) :
  isValidCode code = true -> truthy (Some code) = true.
Proof. intros H. now destruct code. Qed.

Lemma isValidUrl_truthy (url : string) :
  isValidUrl elsewhere url = true -> truthy (Some url) = true.
Proof. intros H. now destruct url. Qed.

(** The INSERT succeeds on a valid code that no row holds and a URL that
    fits the index, as long as the sequence has a value left. *)
Lemma insert_fresh (now : Z) (code url : string) (st : Store) :
  isValidCode code = true ->
  select_by_code code st = [] ->
  has_nul url = false ->
  index_fits beyond url = true ->
  next_id st <= integer_max ->
  insert beyond now code url 0 1 st
  = (Some [new_row (next_id st) now code url 0 1],
     {| rows := (rows st ++ [new_row (next_id st) now code url 0 1])%list;
        next_id := next_id st + 1 |}).
Proof.
  intros Hvalid Hfresh Hnul Hfits Hseq. unfold insert.
  rewrite (has_nul_code code Hvalid), Hnul. cbn [orb].
  apply isValidCode_length in Hvalid.
  assert (Hlen : (8 <? String.length code)%nat = false) by (apply Nat.ltb_ge; lia).
  assert (Hmax : (integer_max <? next_id st) = false) by (apply Z.ltb_ge; lia).
  now rewrite Hmax, Hlen, (no_link_existsb _ _ Hfresh), Hfits.
Qed.

Lemma insert_and_answer_fresh (now : Z) (code url : string) (st : Store) :
  isValidCode code = true ->
  select_by_code code st = [] ->
  has_nul url = false ->
  index_fits beyond url = true ->
  next_id st <= integer_max ->
  insert_and_answer beyond now code url st
  = Returns (Created (Some (new_row (next_id st) now code url 0 1)))
      {| rows := (rows st ++ [new_row (next_id st) now code url 0 1])%list;
         next_id := next_id st + 1 |}.
Proof.
  intros Hvalid Hfresh Hnul Hfits Hseq. unfold insert_and_answer.
  now rewrite (insert_fresh now code url st Hvalid Hfresh Hnul Hfits Hseq).
Qed.

(** The statement raises in three cases, and changes no row then. *)
Lemma insert_and_answer_raises (now : Z) (code url : string) (st : Store) :
  isValidCode code = true ->
  has_nul url = true \/ integer_max < next_id st \/ index_fits beyond url = false ->
  exists st',
    insert_and_answer beyond now code url st = Returns InternalError st'
    /\ rows st' = rows st
    /\ (next_id st' = next_id st \/ next_id st' = next_id st + 1).
Proof.
  intros Hvalid Hcause. unfold insert_and_answer, insert.
  rewrite (has_nul_code code Hvalid). cbn [orb].
  destruct (has_nul url) eqn:Hnul; [exists st; now auto |].
  destruct (integer_max <? next_id st) eqn:Hmax; [exists st; now auto |].
  apply Z.ltb_ge in Hmax.
  destruct Hcause as [H | [H | H]]; [discriminate | lia |].
  rewrite H. cbn [negb]. rewrite orb_true_r.
  eexists. split; [reflexivity |]. cbn. now auto.
Qed.

Lemma length_zero_nil {A} (l : list A) : (List.length l =? 0)%nat = true <-> l = [].
Proof. destruct l; cbn; split; congruence. Qed.

(** The loop only returns a valid code that no row holds. *)
Lemma unique_code_some (g : randomness) (st : Store) (fuel : nat) :
  forall code k c,
    isValidCode code = true ->
    unique_code fuel g code k st = Some c ->
    isValidCode c = true /\ select_by_code c st = [].
Proof.
  induction fuel as [| fuel IH]; intros code k c Hvalid H; cbn in H; [discriminate |].
  destruct (List.length (select_by_code code st) =? 0)%nat eqn:E.
  - injection H as <-. split; [assumption | now apply length_zero_nil].
  - destruct (generateShortCode g k) as [code' k'] eqn:G.
    apply (IH code' k' c); [| assumption].
    change code' with (fst (code', k')). rewrite <- G. apply generateShortCode_valid.
Qed.

Lemma allocate_some (g : randomness) (st : Store) (fuel : nat) (c : string) :
  allocate fuel g st = Some c ->
  isValidCode c = true /\ select_by_code c st = [].
Proof.
  unfold allocate. destruct (generateShortCode g 0) as [code k] eqn:G.
  apply unique_code_some.
  change code with (fst (code, k)). rewrite <- G. apply generateShortCode_valid.
Qed.

(** The answer of the INSERT on a valid code that no row holds. *)
Lemma insert_and_answer_outcome (o : row_order) (now : Z) (url sc : js_value)
  (code : string) (st : Store) (r : response) (st' : Store) :
  isValidUrl elsewhere (str url) = true ->
  isValidCode code = true ->
  select_by_code code st = [] ->
  (if truthy sc then code = str sc else select_by_url o (str url) st = Some []) ->
  insert_and_answer beyond now code (str url) st = Returns r st' ->
  create_outcome elsewhere beyond o now url sc st r st'.
Proof.
  intros Hurl Hcode Hfresh Hpath H.
  destruct (has_nul (str url)) eqn:Hnul.
  { destruct (insert_and_answer_raises now code (str url) st Hcode (or_introl Hnul))
      as [st1 [E [Hrows Hseq]]].
    rewrite E in H. injection H as <- <-. apply co_raised; auto. }
  destruct (integer_max <? next_id st) eqn:Hmax.
  { apply Z.ltb_lt in Hmax.
    destruct (insert_and_answer_raises now code (str url) st Hcode
                (or_intror (or_introl Hmax))) as [st1 [E [Hrows Hseq]]].
    rewrite E in H. injection H as <- <-. apply co_raised; auto. }
  apply Z.ltb_ge in Hmax.
  destruct (index_fits beyond (str url)) eqn:Hfits.
  - rewrite (insert_and_answer_fresh now code (str url) st Hcode Hfresh Hnul Hfits Hmax)
      in H.
    injection H as <- <-. now apply co_created.
  - destruct (insert_and_answer_raises now code (str url) st Hcode
                (or_intror (or_intror Hfits))) as [st1 [E [Hrows Hseq]]].
    rewrite E in H. injection H as <- <-. apply co_raised; auto.
Qed.

Lemma forallb_fails {A} (f : A -> bool) (l : list A) :
  forallb f l = false -> exists x, In x l /\ f x = false.
Proof.
  induction l as [| a l IH]; cbn; [discriminate |].
  destruct (f a) eqn:E; cbn.
  - intros H. destruct (IH H) as [x [Hx Hfx]]. exists x. split; [now right | assumption].
  - intros _. exists a. split; [now left | assumption].
Qed.

(** Every answer of the create handler is one of the six outcomes. *)
Lemma create_returns (o : row_order) (fuel : nat) (g : randomness) (now : Z)
  (url sc : js_value) (st : Store) (r : response) (st' : Store) :
  create elsewhere beyond o fuel g now url sc st = Returns r st' ->
  create_outcome elsewhere beyond o now url sc st r st'.
Proof.
  unfold create.
  destruct (truthy url) eqn:Hurl; cbn [negb orb].
  2: { intros H; injection H as <- <-. constructor. now left. }
  destruct (isValidUrl elsewhere (str url)) eqn:Hvalid; cbn [negb].
  2: { intros H; injection H as <- <-. constructor. now right. }
  destruct (truthy sc) eqn:Hsc; cbn [andb].
  - destruct (isValidCode (str sc)) eqn:Hcode; cbn [negb].
    2: { intros H; injection H as <- <-. now constructor. }
    rewrite (select_link_runs _ _ (has_nul_code _ Hcode)).
    destruct (0 <? List.length (select_by_code (str sc) st))%nat eqn:Hex.
    + intros H; injection H as <- <-. constructor; try assumption.
      intros E. rewrite E in Hex. discriminate.
    + assert (Hnil : select_by_code (str sc) st = []).
      { destruct (select_by_code (str sc) st); [reflexivity | discriminate]. }
      apply insert_and_answer_outcome; try assumption. now rewrite Hsc.
  - destruct (select_by_url o (str url) st) as [[| first rest] |] eqn:Hsel.
    3: { intros H; injection H as <- <-. apply co_raised; auto. left.
         unfold select_by_url in Hsel. now destruct (has_nul (str url)). }
    + destruct (allocate fuel g st) as [c |] eqn:Halloc; [| discriminate].
      destruct (allocate_some _ _ _ _ Halloc) as [Hc Hfresh].
      apply insert_and_answer_outcome; try assumption. now rewrite Hsc.
    + unfold update_creation_count.
      destruct (update (fun r => id r =? id first) (bump_creation now) st)
        as [result st1] eqn:Hup.
      destruct (forallb (fun r => in_integer (creation_count r)) result) eqn:Hall.
      * intros H; injection H as <- <-.
        replace result
          with (fst (update (fun r => id r =? id first) (bump_creation now) st))
          in * by now rewrite Hup.
        replace st1
          with (snd (update (fun r => id r =? id first) (bump_creation now) st))
          by now rewrite Hup.
        now apply co_incremented with (rest := rest).
      * intros H; injection H as <- <-. apply co_raised; auto.
        right. right. right. split; [assumption |]. exists first, rest.
        split; [exact Hsel |].
        apply forallb_fails in Hall. destruct Hall as [x [Hx Hbad]].
        unfold update in Hup. injection Hup as <- _.
        apply in_map_iff in Hx. destruct Hx as [r0 [<- Hr0]].
        apply filter_In in Hr0. destruct Hr0 as [Hin Hid].
        exists r0. split; [assumption |]. split; [now apply Z.eqb_eq | exact Hbad].
Qed.

(** ** The invariant holds in every reachable store *)

Lemma in_integer_spec (z : Z) :
  in_integer z = true <-> - integer_max - 1 <= z <= integer_max.
Proof. unfold in_integer. rewrite andb_true_iff, !Z.leb_le. reflexivity. Qed.

Lemma map_update_field {A B} (f : A -> B) (cond : A -> bool) (set : A -> A)
  (l : list A) :
  (forall r, f (set r) = f r) ->
  map f (map (fun r => if cond r then set r else r) l) = map f l.
Proof.
  intros H. rewrite map_map. apply map_ext. intros r.
  destruct (cond r); [apply H | reflexivity].
Qed.

Lemma Forall_update {A} (P : A -> Prop) (cond : A -> bool) (set : A -> A)
  (l : list A) :
  (forall r, In r l -> cond r = true -> P r -> P (set r)) ->
  Forall P l -> Forall P (map (fun r => if cond r then set r else r) l).
Proof.
  intros H Hall. rewrite Forall_forall in *. intros x Hx.
  apply in_map_iff in Hx. destruct Hx as [r [<- Hr]].
  destruct (cond r) eqn:E; auto.
Qed.

(** What the range check of an UPDATE says of each row it rewrites. *)
Lemma forallb_rewritten (check : Link -> bool) (cond : Link -> bool)
  (set : Link -> Link) (st : Store) :
  forallb check (fst (update cond set st)) = true ->
  forall r, In r (rows st) -> cond r = true -> check (set r) = true.
Proof.
  cbn. rewrite forallb_forall. intros H r Hr Hc. apply H.
  apply in_map, filter_In. now split.
Qed.

(** A DELETE keeps a column without duplicates that way. *)
Lemma filter_keeps_distinct {K} (column : Link -> K) (keep : Link -> bool)
  (table : list Link) :
  NoDup (map column table) -> NoDup (map column (filter keep table)).
Proof.
  induction table as [| x table IH]; cbn; intros H; [constructor |].
  inversion H as [| ? ? Hnotin Hnd]; subst.
  destruct (keep x); cbn; [constructor |]; auto.
  intros Hin. apply Hnotin. apply in_map_iff in Hin. destruct Hin as [y [Hy Hin]].
  apply in_map_iff. exists y. split; [assumption |].
  now apply filter_In in Hin.
Qed.

Lemma Forall_filter {A} (P : A -> Prop) (p : A -> bool) (l : list A) :
  Forall P l -> Forall P (filter p l).
Proof.
  intros H. apply Forall_forall. intros x Hx. apply filter_In in Hx.
  rewrite Forall_forall in H. now apply H.
Qed.

Lemma store_ok_empty : store_ok elsewhere beyond empty.
Proof. constructor; cbn; constructor. Qed.

Lemma store_ok_update (cond : Link -> bool) (set : Link -> Link) (st : Store) :
  (forall r, id (set r) = id r) ->
  (forall r, short_code (set r) = short_code r) ->
  (forall r, target_url (set r) = target_url r) ->
  (forall r, In r (rows st) -> cond r = true ->
     0 <= total_clicks r <= integer_max -> 0 <= total_clicks (set r) <= integer_max) ->
  (forall r, In r (rows st) -> cond r = true ->
     1 <= creation_count r <= integer_max ->
     1 <= creation_count (set r) <= integer_max) ->
  store_ok elsewhere beyond st -> store_ok elsewhere beyond (snd (update cond set st)).
Proof.
  intros Hid Hcode Hurl Hclicks Hcounts [H1 H2 H3 H4 H6 H7 H8 H9]. constructor; cbn.
  - now rewrite map_update_field.
  - apply Forall_update; [| assumption]. intros r _ _. now rewrite Hcode.
  - now rewrite map_update_field.
  - apply Forall_update; [| assumption]. intros r _ _. now rewrite Hid.
  - apply Forall_update; [| assumption]. intros r _ _. now rewrite Hurl.
  - apply Forall_update; [| assumption]. intros r _ _. now rewrite Hurl.
  - apply Forall_update; assumption.
  - apply Forall_update; assumption.
Qed.

Lemma store_ok_delete (code : string) (st : Store) :
  store_ok elsewhere beyond st -> store_ok elsewhere beyond (snd (Db.delete code st)).
Proof.
  intros Hok. unfold Db.delete. destruct (has_nul code); [exact Hok |].
  destruct Hok as [H1 H2 H3 H4 H6 H7 H8 H9]. constructor; cbn;
    auto using filter_keeps_distinct, Forall_filter.
Qed.

Lemma store_ok_insert (now : Z) (code url : string) (st : Store) :
  isValidCode code = true ->
  select_by_code code st = [] ->
  has_nul url = false ->
  index_fits beyond url = true ->
  store_ok elsewhere beyond st ->
  store_ok elsewhere beyond
    {| rows := (rows st ++ [new_row (next_id st) now code url 0 1])%list;
       next_id := next_id st + 1 |}.
Proof.
  intros Hcode Hfresh Hnul Hfits [H1 H2 H3 H4 H6 H7 H8 H9].
  apply no_link_select in Hfresh.
  constructor; cbn [rows next_id].
  - rewrite map_app. cbn. apply NoDup_app; [assumption | repeat constructor; intros [] |].
    intros c Hin [<- | []]. apply in_map_iff in Hin. destruct Hin as [r [Hr Hin]].
    now apply (Hfresh r Hin).
  - apply Forall_app. split; [assumption | now repeat constructor].
  - rewrite map_app. cbn. apply NoDup_app; [assumption | repeat constructor; intros [] |].
    intros i Hin [<- | []]. apply in_map_iff in Hin. destruct Hin as [r [Hr Hin]].
    rewrite Forall_forall in H4. specialize (H4 r Hin). lia.
  - apply Forall_app. split.
    + eapply Forall_impl; [| exact H4]. cbn. intros r Hr. lia.
    + repeat constructor. cbn. lia.
  - apply Forall_app. split; [assumption | now repeat constructor].
  - apply Forall_app. split; [assumption | now repeat constructor].
  - apply Forall_app. split; [assumption |]. repeat constructor; cbn; unfold integer_max; lia.
  - apply Forall_app. split; [assumption |]. repeat constructor; cbn; unfold integer_max; lia.
Qed.

(** A statement that raised may have spent an id; the rows are as before. *)
Lemma store_ok_spent (st st' : Store) :
  rows st' = rows st ->
  next_id st' = next_id st \/ next_id st' = next_id st + 1 ->
  store_ok elsewhere beyond st -> store_ok elsewhere beyond st'.
Proof.
  intros Hrows Hseq [H1 H2 H3 H4 H6 H7 H8 H9].
  constructor; rewrite Hrows; try assumption.
  eapply Forall_impl; [| exact H4]. cbn. intros r Hr. lia.
Qed.

Lemma store_ok_update_clicks (now : Z) (code : string) (st : Store) :
  store_ok elsewhere beyond st ->
  store_ok elsewhere beyond (snd (update_clicks now code st)).
Proof.
  intros Hok. unfold update_clicks.
  destruct (update (fun r => (short_code r =? code)%string) (bump_clicks now) st)
    as [result st1] eqn:Hup.
  destruct (has_nul code); [exact Hok |].
  destruct (forallb (fun r => in_integer (total_clicks r)) result) eqn:Hall;
    [| exact Hok].
  replace result
    with (fst (update (fun r => (short_code r =? code)%string) (bump_clicks now) st))
    in Hall by now rewrite Hup.
  replace st1
    with (snd (update (fun r => (short_code r =? code)%string) (bump_clicks now) st))
    by now rewrite Hup.
  apply store_ok_update; try reflexivity; try assumption; [| now auto].
  intros r Hr Hc Hrange.
  pose proof (forallb_rewritten _ _ _ st Hall r Hr Hc) as Hin.
  cbn in Hin. apply in_integer_spec in Hin. cbn. lia.
Qed.

Lemma store_ok_create (o : row_order) (now : Z) (url sc : js_value) (st : Store)
  (r : response) (st' : Store) :
  create_outcome elsewhere beyond o now url sc st r st' ->
  store_ok elsewhere beyond st -> store_ok elsewhere beyond st'.
Proof.
  intros H Hok. destruct H as [| | | code | first rest ? ? ? Hall | st' ? Hrows Hseq];
    try assumption.
  - now apply store_ok_insert.
  - apply store_ok_update; try reflexivity; try assumption; [now auto |].
    intros r Hr Hc Hrange.
    pose proof (forallb_rewritten _ _ _ st Hall r Hr Hc) as Hin.
    cbn in Hin. apply in_integer_spec in Hin. cbn. lia.
  - now apply (store_ok_spent st st').
Qed.

Lemma store_ok_step (st st' : Store) :
  step elsewhere beyond st st' -> store_ok elsewhere beyond st ->
  store_ok elsewhere beyond st'.
Proof.
  intros H Hok.
  destruct H as [o fuel g now url code st r st' H | code st | code st | now code st].
  - apply create_returns in H. eapply store_ok_create; eassumption.
  - unfold get. destruct (select_link code st) as [result |]; [| exact Hok].
    now destruct (List.length result =? 0)%nat.
  - unfold delete. pose proof (store_ok_delete code st Hok) as Hd.
    destruct (Db.delete code st) as [[result |] st1]; cbn in Hd; [| exact Hd].
    now destruct (List.length result =? 0)%nat.
  - unfold recordClick. pose proof (store_ok_update_clicks now code st Hok) as Hu.
    destruct (update_clicks now code st) as [[[| link result] |] st1]; exact Hu.
Qed.

Lemma reachable_ok (st : Store) :
  reachable elsewhere beyond st -> store_ok elsewhere beyond st.
Proof.
  induction 1 as [| st st' _ IH Hstep]; [apply store_ok_empty |].
  eapply store_ok_step; eassumption.
Qed.

(** ** Lookups of a code that no Link has *)

Lemma lookups_absent (st : Store) (code : string) (now : Z) :
  Spec.no_link code st ->
  (has_nul code = false ->
     get code st = (NotFound, st)
     /\ delete code st = (NotFound, st)
     /\ recordClick now code st = (NotFound, st))
  /\ (has_nul code = true ->
        get code st = (InternalError, st)
        /\ delete code st = (InternalError, st)
        /\ recordClick now code st = (InternalError, st)).
Proof.
  intros Habsent. split; intros Hc.
  - split; [now apply get_absent |].
    split; [now apply delete_absent | now apply recordClick_absent].
  - split; [now apply get_raises |].
    split; [now apply delete_raises | now apply recordClick_raises].
Qed.

(** C9, as the code has it: the lookups do not validate the shape of the
    code.  On a string that fails the 6-8 alphanumeric pattern and matches
    no stored code, [get], [delete] and [recordClick] answer NotFound and
    leave the store as it was, unless the string holds U+0000: the
    statement then raises and they answer 500, the store as it was.  They
    never answer InvalidCode. *)
Theorem lookups_do_not_validate_code :
  forall (st : Store) (code : string) (now : Z),
    isValidCode code = false ->
    Spec.no_link code st ->
    (has_nul code = false ->
       get code st = (NotFound, st)
       /\ delete code st = (NotFound, st)
       /\ recordClick now code st = (NotFound, st))
    /\ (has_nul code = true ->
          get code st = (InternalError, st)
          /\ delete code st = (InternalError, st)
          /\ recordClick now code st = (InternalError, st))
    /\ fst (get code st) <> InvalidCode
    /\ fst (delete code st) <> InvalidCode
    /\ fst (recordClick now code st) <> InvalidCode.
Proof.
  intros st code now _ Habsent.
  destruct (lookups_absent st code now Habsent) as [Hplain Hnul].
  split; [exact Hplain |]. split; [exact Hnul |].
  destruct (has_nul code).
  - destruct (Hnul eq_refl) as [-> [-> ->]]. repeat split; discriminate.
  - destruct (Hplain eq_refl) as [-> [-> ->]]. repeat split; discriminate.
Qed.

(** ** Failures change no row *)

Lemma create_failure_unchanged (o : row_order) (fuel : nat) (g : randomness)
  (now : Z) (url sc : js_value) (st : Store) (r : response) (st' : Store) :
  create elsewhere beyond o fuel g now url sc st = Returns r st' ->
  Spec.failure r = true ->
  rows st' = rows st
  /\ (st' = st \/ (r = InternalError /\ next_id st' = next_id st + 1)).
Proof.
  intros H Hfail. apply create_returns in H.
  destruct H as [| | | | | st' ? Hrows [Hseq | Hseq]];
    try discriminate; try (split; [reflexivity | now left]).
  - split; [assumption |]. left. destruct st, st'. cbn in *. now subst.
  - split; [assumption |]. now right.
Qed.

Lemma delete_failure_unchanged (code : string) (st : Store) :
  Spec.failure (fst (delete code st)) = true -> snd (delete code st) = st.
Proof.
  intros H. destruct (has_nul code) eqn:Hc; [now rewrite delete_raises |].
  destruct (select_by_code code st) as [| r l] eqn:Hsel.
  - apply no_link_select in Hsel. now rewrite (delete_absent code st Hc Hsel).
  - unfold delete, Db.delete in H. rewrite Hc, Hsel in H. discriminate.
Qed.

Lemma recordClick_failure_unchanged (now : Z) (code : string) (st : Store) :
  Spec.failure (fst (recordClick now code st)) = true ->
  snd (recordClick now code st) = st.
Proof.
  intros H. destruct (has_nul code) eqn:Hc; [now rewrite recordClick_raises |].
  destruct (select_by_code code st) as [| r l] eqn:Hsel.
  - apply no_link_select in Hsel. now rewrite (recordClick_absent now code st Hc Hsel).
  - unfold recordClick, update_clicks, update in *. unfold select_by_code in Hsel.
    rewrite Hc, Hsel in *. cbn [map] in *.
    destruct (forallb _ _); [discriminate H | reflexivity].
Qed.

(** C8, as the code has it: on a code with no active Link, [get], [delete]
    and [recordClick] fail and do not change the store (no Link is created
    by [recordClick]): with NotFound, or with 500 when the code holds
    U+0000 and the statement raises.  And whenever [create], [delete] or
    [recordClick] answers with a failure, every row is as it was; the one
    change a failure can leave is an id of the sequence spent by an INSERT
    that raised. *)
Theorem failing_operations_do_not_mutate :
  forall (st : Store) (code : string),
    (Spec.no_link code st ->
       (has_nul code = false ->
          get code st = (NotFound, st)
          /\ delete code st = (NotFound, st)
          /\ forall now, recordClick now code st = (NotFound, st))
       /\ (has_nul code = true ->
             get code st = (InternalError, st)
             /\ delete code st = (InternalError, st)
             /\ forall now, recordClick now code st = (InternalError, st)))
    /\ (forall o fuel g now url sc r st',
          create elsewhere beyond o fuel g now url sc st = Returns r st' ->
          Spec.failure r = true ->
          rows st' = rows st
          /\ (st' = st \/ (r = InternalError /\ next_id st' = next_id st + 1)))
    /\ (Spec.failure (fst (delete code st)) = true -> snd (delete code st) = st)
    /\ (forall now,
          Spec.failure (fst (recordClick now code st)) = true ->
          snd (recordClick now code st) = st).
Proof.
  intros st code. split; [| split; [| split]].
  - intros Habsent. split; intros Hc.
    + split; [now apply get_absent |]. split; [now apply delete_absent |].
      intros now. now apply recordClick_absent.
    + split; [now apply get_raises |]. split; [now apply delete_raises |].
      intros now. now apply recordClick_raises.
  - intros o fuel g now url sc r st'. apply create_failure_unchanged.
  - apply delete_failure_unchanged.
  - intros now. apply recordClick_failure_unchanged.
Qed.

(** ** Updating the one row a key selects *)

Lemma NoDup_map_others {A B} (f : A -> B) (before after : list A) (x : A) :
  NoDup (map f (before ++ x :: after)) ->
  forall r, In r (before ++ after) -> f r <> f x.
Proof.
  rewrite map_app. cbn [map]. intros H r Hr Heq.
  apply NoDup_remove_2 in H. apply H. rewrite <- map_app, <- Heq.
  now apply in_map.
Qed.

Lemma update_one (cond : Link -> bool) (set : Link -> Link) (st : Store)
  (before after : list Link) (l : Link) :
  rows st = (before ++ l :: after)%list ->
  cond l = true ->
  (forall r, In r (before ++ after) -> cond r = false) ->
  update cond set st
  = ([set l], {| rows := (before ++ set l :: after)%list; next_id := next_id st |}).
Proof.
  intros Hrows Hl Hothers. unfold update. rewrite Hrows.
  assert (Hb : forall r, In r before -> cond r = false).
  { intros r Hr. apply Hothers, in_or_app. now left. }
  assert (Ha : forall r, In r after -> cond r = false).
  { intros r Hr. apply Hothers, in_or_app. now right. }
  rewrite filter_app. cbn [filter]. rewrite Hl.
  rewrite (filter_none _ _ Hb), (filter_none _ _ Ha).
  rewrite (map_app _ before). cbn [map app]. rewrite Hl.
  now rewrite (map_unless _ _ _ Hb), (map_unless _ _ _ Ha).
Qed.

Lemma create_one_link (o : row_order) :
  create elsewhere beyond o 1 Examples.zeros 10 (Some "https://google.com") None empty
  = Returns (Created (Some Examples.google)) Examples.one_link.
Proof.
  unfold create. cbn [truthy str negb orb andb String.eqb Ascii.eqb Bool.eqb].
  replace (isValidUrl elsewhere "https://google.com") with true by reflexivity.
  cbn [negb].
  assert (Hsel : select_by_url o "https://google.com" empty = Some []).
  { unfold select_by_url. cbn. now rewrite scan_nil. }
  rewrite Hsel.
  replace (allocate 1 Examples.zeros empty) with (Some "AAAAAA") by reflexivity.
  now rewrite insert_and_answer_fresh.
Qed.

Lemma reachable_one_link : reachable elsewhere beyond Examples.one_link.
Proof.
  apply (reach_step elsewhere beyond empty); [apply reach_empty |].
  exact (step_create elsewhere beyond _ _ _ _ _ _ _ _ _
           (create_one_link Examples.table_order)).
Qed.

(** ** Recording a click *)

(** On the code of a row of a reachable store whose count of clicks is
    below the capacity of the column, the click statement rewrites that row
    and no other, and the handler redirects to the URL of the row as
    rewritten. *)
Lemma recordClick_row (st : Store) (now : Z) (l : Link) :
  reachable elsewhere beyond st ->
  In l (rows st) ->
  total_clicks l < integer_max ->
  exists before after,
    rows st = (before ++ l :: after)%list
    /\ update_clicks now (short_code l) st
       = (Some [bump_clicks now l],
          {| rows := (before ++ bump_clicks now l :: after)%list;
             next_id := next_id st |})
    /\ recordClick now (short_code l) st
       = (Redirect (target_url (bump_clicks now l)),
          {| rows := (before ++ bump_clicks now l :: after)%list;
             next_id := next_id st |}).
Proof.
  intros Hreach Hin Hroom. pose proof (reachable_ok st Hreach) as Hok.
  destruct (in_split _ _ Hin) as [before [after Hrows]].
  exists before, after. split; [exact Hrows |].
  pose proof (ok_codes elsewhere beyond st Hok) as Hnd.
  rewrite Hrows in Hnd.
  pose proof (ok_clicks elsewhere beyond st Hok) as Hclicks.
  rewrite Forall_forall in Hclicks. specialize (Hclicks l Hin).
  assert (Hup : update_clicks now (short_code l) st
                = (Some [bump_clicks now l],
                   {| rows := (before ++ bump_clicks now l :: after)%list;
                      next_id := next_id st |})).
  pose proof (ok_valid elsewhere beyond st Hok) as Hvalid.
  rewrite Forall_forall in Hvalid.
  { unfold update_clicks.
    rewrite (update_one _ (bump_clicks now) st before after l Hrows);
      [| apply String.eqb_refl
       | intros r Hr; apply String.eqb_neq; exact (NoDup_map_others _ _ _ _ Hnd r Hr)].
    rewrite (has_nul_code _ (Hvalid l Hin)).
    cbn [forallb total_clicks bump_clicks].
    assert (Hfit : in_integer (total_clicks l + 1) = true)
      by (apply in_integer_spec; lia).
    now rewrite Hfit. }
  split; [exact Hup |].
  unfold recordClick. now rewrite Hup.
Qed.

(** At the capacity of the column the click statement raises: the handler
    answers 500 and the table is as it was. *)
Lemma recordClick_full (st : Store) (now : Z) (l : Link) :
  reachable elsewhere beyond st ->
  In l (rows st) ->
  total_clicks l = integer_max ->
  recordClick now (short_code l) st = (InternalError, st).
Proof.
  intros Hreach Hin Hfull. pose proof (reachable_ok st Hreach) as Hok.
  pose proof (ok_valid elsewhere beyond st Hok) as Hvalid.
  rewrite Forall_forall in Hvalid.
  unfold recordClick, update_clicks.
  rewrite (has_nul_code _ (Hvalid l Hin)).
  destruct (update _ (bump_clicks now) st) as [result st1] eqn:Hup.
  assert (Hbad : forallb (fun r => in_integer (total_clicks r)) result = false).
  { destruct (forallb _ result) eqn:E; [| reflexivity].
    replace result
      with (fst (update (fun r => (short_code r =? short_code l)%string)
                        (bump_clicks now) st)) in E by now rewrite Hup.
    pose proof (forallb_rewritten _ _ _ st E l Hin (String.eqb_refl _)) as H.
    cbn in H. apply in_integer_spec in H. lia. }
  now rewrite Hbad.
Qed.

(** C1, as the code has it: on the code of an existing Link whose
    [total_clicks] is below 2147483647, the capacity of its column,
    [recordClick] is the single UPDATE statement; it adds exactly 1 to that
    Link's [total_clicks], sets [last_clicked] to the current time,
    redirects to the [target_url] of the row as updated, and leaves every
    other field, [updated_at] among them, and every other row as they
    were.  At the capacity the statement raises: the handler answers 500
    and nothing changes. *)
Theorem recordClick_existing :
  forall (st : Store) (now : Z) (l : Link),
    reachable elsewhere beyond st ->
    In l (rows st) ->
    0 <= total_clicks l <= integer_max
    /\ (total_clicks l < integer_max ->
        exists before after,
          rows st = (before ++ l :: after)%list
          /\ update_clicks now (short_code l) st
             = (Some [bump_clicks now l],
                {| rows := (before ++ bump_clicks now l :: after)%list;
                   next_id := next_id st |})
          /\ recordClick now (short_code l) st
             = (Redirect (target_url (bump_clicks now l)),
                {| rows := (before ++ bump_clicks now l :: after)%list;
                   next_id := next_id st |})
          /\ total_clicks (bump_clicks now l) = total_clicks l + 1
          /\ last_clicked (bump_clicks now l) = Some now
          /\ updated_at (bump_clicks now l) = updated_at l
          /\ id (bump_clicks now l) = id l
          /\ short_code (bump_clicks now l) = short_code l
          /\ target_url (bump_clicks now l) = target_url l
          /\ creation_count (bump_clicks now l) = creation_count l
          /\ created_at (bump_clicks now l) = created_at l)
    /\ (total_clicks l = integer_max ->
        recordClick now (short_code l) st = (InternalError, st)).
Proof.
  intros st now l Hreach Hin.
  pose proof (ok_clicks elsewhere beyond st (reachable_ok st Hreach)) as Hclicks.
  rewrite Forall_forall in Hclicks.
  split; [now apply Hclicks |]. split.
  - intros Hroom.
    destruct (recordClick_row st now l Hreach Hin Hroom)
      as [before [after [Hrows [Hup Hclick]]]].
    exists before, after. repeat (split; [assumption || reflexivity |]). reflexivity.
  - now apply recordClick_full.
Qed.

(** Two clicks in a row add 2, and [last_clicked] is the time of the
    second. *)
Lemma recordClick_twice (st : Store) (t1 t2 : Z) (l : Link) :
  reachable elsewhere beyond st ->
  In l (rows st) ->
  total_clicks l + 1 < integer_max ->
  let st1 := snd (recordClick t1 (short_code l) st) in
  let l2 := bump_clicks t2 (bump_clicks t1 l) in
  In l2 (rows (snd (recordClick t2 (short_code l) st1)))
  /\ fst (recordClick t2 (short_code l) st1) = Redirect (target_url l)
  /\ total_clicks l2 = total_clicks l + 2
  /\ last_clicked l2 = Some t2
  /\ target_url l2 = target_url l.
Proof.
  intros Hreach Hin Hroom st1 l2.
  destruct (recordClick_row st t1 l Hreach Hin ltac:(lia)) as [b1 [a1 [_ [_ H1]]]].
  assert (Hreach1 : reachable elsewhere beyond st1).
  { apply (reach_step elsewhere beyond st); [assumption | apply step_click]. }
  assert (Hin1 : In (bump_clicks t1 l) (rows st1)).
  { unfold st1. rewrite H1. cbn. apply in_or_app. right. now left. }
  destruct (recordClick_row st1 t2 (bump_clicks t1 l) Hreach1 Hin1 ltac:(cbn; lia))
    as [b2 [a2 [_ [_ H2]]]].
  cbn [short_code bump_clicks] in H2. rewrite H2. cbn [fst snd rows].
  split; [apply in_or_app; right; now left |].
  split; [reflexivity |]. split; [cbn; lia |]. split; reflexivity.
Qed.

(** ** One Link per code *)

(** With a custom code that a row holds, the handler stops at the URL check
    or at the existence check; it never reaches the INSERT. *)
Lemma create_held_code (o : row_order) (fuel : nat) (g : randomness) (now : Z)
  (url : js_value) (code : string) (st : Store) (l : Link) :
  isValidCode code = true ->
  In l (rows st) -> short_code l = code ->
  create elsewhere beyond o fuel g now url (Some code) st
  = Returns (if truthy url && isValidUrl elsewhere (str url)
             then CodeConflict else InvalidURL) st.
Proof.
  intros Hcode Hin Heq. unfold create.
  destruct (truthy url); cbn [negb orb andb]; [| reflexivity].
  destruct (isValidUrl elsewhere (str url)); cbn [negb]; [| reflexivity].
  rewrite (isValidCode_truthy code Hcode). cbn [str andb]. rewrite Hcode. cbn [negb].
  rewrite (select_link_runs _ _ (has_nul_code _ Hcode)).
  destruct (select_by_code code st) as [| x rest] eqn:Hsel; [| reflexivity].
  apply no_link_select in Hsel. now destruct (Hsel l Hin).
Qed.

Lemma create_custom_fresh (o : row_order) (fuel : nat) (g : randomness) (now : Z)
  (url code : string) (st : Store) :
  isValidUrl elsewhere url = true ->
  isValidCode code = true ->
  select_by_code code st = [] ->
  has_nul url = false ->
  index_fits beyond url = true ->
  next_id st <= integer_max ->
  create elsewhere beyond o fuel g now (Some url) (Some code) st
  = Returns (Created (Some (new_row (next_id st) now code url 0 1)))
      {| rows := (rows st ++ [new_row (next_id st) now code url 0 1])%list;
         next_id := next_id st + 1 |}.
Proof.
  intros Hurl Hcode Hfresh Hnul Hfits Hseq. unfold create.
  rewrite (isValidUrl_truthy url Hurl), (isValidCode_truthy code Hcode).
  cbn [negb str andb orb]. rewrite Hurl, Hcode. cbn [negb].
  rewrite (select_link_runs _ _ (has_nul_code _ Hcode)), Hfresh.
  cbn [List.length Nat.ltb Nat.leb].
  now apply insert_and_answer_fresh.
Qed.

Lemma delete_removes (code : string) (st : Store) :
  has_nul code = false -> Spec.no_link code (snd (delete code st)).
Proof.
  intros Hc. unfold delete, Db.delete. rewrite Hc.
  destruct (List.length (select_by_code code st) =? 0)%nat; cbn;
    intros r Hr; apply filter_In in Hr; destruct Hr as [_ Hr];
    now apply negb_true_iff, String.eqb_neq in Hr.
Qed.

Lemma delete_keeps_sequence (code : string) (st : Store) :
  next_id (snd (delete code st)) = next_id st.
Proof.
  unfold delete, Db.delete. destruct (has_nul code); [reflexivity |].
  now destruct (List.length (select_by_code code st) =? 0)%nat.
Qed.

(** C3: in every reachable store no two Links share a code; [create] with a
    custom code that a Link holds inserts nothing and answers CodeConflict
    (InvalidURL when the URL check, which comes first, rejects the URL);
    every request keeps the codes distinct; and the check is against the
    rows that exist now, so once its Link is deleted a code is absent and
    [create] assigns it again, to a URL that the table can store and while
    the sequence has a value left. *)
Theorem codes_stay_unique :
  forall st : Store,
    reachable elsewhere beyond st ->
    Spec.unique_codes st
    /\ (forall o fuel g now url l,
          In l (rows st) ->
          create elsewhere beyond o fuel g now url (Some (short_code l)) st
          = Returns (if truthy url && isValidUrl elsewhere (str url)
                     then CodeConflict else InvalidURL) st)
    /\ (forall st', step elsewhere beyond st st' -> Spec.unique_codes st')
    /\ (forall o fuel g now url code,
          isValidUrl elsewhere url = true -> isValidCode code = true ->
          has_nul url = false -> index_fits beyond url = true ->
          next_id st <= integer_max ->
          let st1 := snd (delete code st) in
          Spec.no_link code st1
          /\ create elsewhere beyond o fuel g now (Some url) (Some code) st1
             = Returns (Created (Some (new_row (next_id st1) now code url 0 1)))
                 {| rows := (rows st1 ++ [new_row (next_id st1) now code url 0 1])%list;
                    next_id := next_id st1 + 1 |}).
Proof.
  intros st Hreach. pose proof (reachable_ok st Hreach) as Hok.
  split; [exact (ok_codes elsewhere beyond st Hok) |].
  split.
  { intros o fuel g now url l Hin.
    apply create_held_code with (l := l); try assumption; [| reflexivity].
    pose proof (ok_valid elsewhere beyond st Hok) as Hvalid.
    rewrite Forall_forall in Hvalid. now apply Hvalid. }
  split.
  { intros st' Hstep.
    exact (ok_codes elsewhere beyond st' (store_ok_step st st' Hstep Hok)). }
  intros o fuel g now url code Hurl Hcode Hnul Hfits Hseq st1.
  pose proof (delete_removes code st (has_nul_code _ Hcode)) as Hgone.
  fold st1 in Hgone.
  split; [exact Hgone |].
  apply create_custom_fresh; try assumption; [now apply no_link_select |].
  unfold st1. now rewrite delete_keeps_sequence.
Qed.

(** ** Creating again for a URL that is stored *)

(** The lookup by URL returns the rows that have the URL, and those. *)
Lemma select_by_url_in (o : row_order) (url : string) (st : Store)
  (found : list Link) (l : Link) :
  select_by_url o url st = Some found ->
  In l found <-> In l (rows st) /\ target_url l = url.
Proof.
  unfold select_by_url. destruct (has_nul url); [discriminate |].
  intros E. injection E as <-. split.
  - intros H. apply (Permutation_in _ (scan_perm o _)) in H.
    apply filter_In in H. destruct H as [H E]. now apply String.eqb_eq in E.
  - intros [H E]. apply (Permutation_in _ (Permutation_sym (scan_perm o _))).
    apply filter_In. split; [assumption | now apply String.eqb_eq].
Qed.

Lemma select_by_url_none (o : row_order) (url : string) (st : Store)
  (found : list Link) :
  Forall (fun l => target_url l <> url) (rows st) ->
  select_by_url o url st = Some found -> found = [].
Proof.
  intros H E. destruct found as [| x l]; [reflexivity |].
  assert (Hx : In x (x :: l)) by now left.
  apply (select_by_url_in o url st _ x E) in Hx. destruct Hx as [Hin Hurl].
  rewrite Forall_forall in H. now destruct (H x Hin).
Qed.

(** The lookup by URL finds a Link whenever one has the URL and the URL is
    a text parameter the database takes. *)
Lemma found_for_url_exists (o : row_order) (url : string) (st : Store) :
  has_nul url = false ->
  (exists l, In l (rows st) /\ target_url l = url) ->
  exists before chosen after, Spec.found_for_url o url st before chosen after.
Proof.
  intros Hnul [l Hl].
  destruct (select_by_url o url st) as [found |] eqn:E.
  2: { unfold select_by_url in E. rewrite Hnul in E. discriminate. }
  apply (select_by_url_in o url st found l E) in Hl.
  destruct found as [| chosen rest]; [destruct Hl |].
  assert (Hc : In chosen (chosen :: rest)) by now left.
  apply (select_by_url_in o url st _ chosen E) in Hc. destruct Hc as [Hin Hurl].
  destruct (in_split _ _ Hin) as [before [after Hrows]].
  exists before, chosen, after. unfold Spec.found_for_url.
  split; [assumption |]. split; [assumption |]. now exists rest.
Qed.

(** When one Link only has the URL, it is the Link found, whatever the
    order of the rows returned. *)
Lemma found_for_url_only (o : row_order) (url : string) (st : Store)
  (before after : list Link) (chosen l : Link) :
  Spec.found_for_url o url st before chosen after ->
  In l (rows st) ->
  (forall other, In other (rows st) -> target_url other = url -> other = l) ->
  chosen = l.
Proof.
  intros [Hrows [Hurl _]] Hl Honly. apply Honly; [| exact Hurl].
  rewrite Hrows. apply in_or_app. right. now left.
Qed.

Lemma update_creation_count_one (now : Z) (st : Store)
  (before after : list Link) (chosen : Link) :
  store_ok elsewhere beyond st ->
  rows st = (before ++ chosen :: after)%list ->
  update_creation_count now (id chosen) st
  = if in_integer (creation_count chosen + 1)
    then (Some [bump_creation now chosen],
          {| rows := (before ++ bump_creation now chosen :: after)%list;
             next_id := next_id st |})
    else (None, st).
Proof.
  intros Hok Hrows. unfold update_creation_count.
  rewrite (update_one _ (bump_creation now) st before after chosen Hrows);
    [| apply Z.eqb_refl |].
  - cbn [forallb creation_count bump_creation]. now rewrite andb_true_r.
  - intros r Hr. apply Z.eqb_neq.
    pose proof (ok_ids elsewhere beyond st Hok) as Hnd. rewrite Hrows in Hnd.
    exact (NoDup_map_others _ _ _ _ Hnd r Hr).
Qed.

(** Without a custom code, [create] for a URL that rows hold reaches the
    creation-count statement for the Link found. *)
Lemma create_found (o : row_order) (fuel : nat) (g : randomness) (now : Z)
  (url : string) (st : Store) (before after : list Link) (chosen : Link) :
  store_ok elsewhere beyond st ->
  isValidUrl elsewhere url = true ->
  Spec.found_for_url o url st before chosen after ->
  create elsewhere beyond o fuel g now (Some url) None st
  = if in_integer (creation_count chosen + 1)
    then Returns (Incremented (Some (bump_creation now chosen)))
           {| rows := (before ++ bump_creation now chosen :: after)%list;
              next_id := next_id st |}
    else Returns InternalError st.
Proof.
  intros Hok Hvalid [Hrows [Hurl [rest Hsel]]].
  assert (Hin : In chosen (rows st)).
  { rewrite Hrows. apply in_or_app. right. now left. }
  unfold create. rewrite (isValidUrl_truthy url Hvalid).
  cbn [negb str truthy andb orb]. rewrite Hvalid. cbn [negb].
  rewrite Hsel.
  rewrite (update_creation_count_one now st before after chosen Hok Hrows).
  now destruct (in_integer (creation_count chosen + 1)).
Qed.

Lemma create_same_url (o : row_order) (fuel : nat) (g : randomness) (now : Z)
  (url : string) (st : Store) (before after : list Link) (chosen : Link) :
  store_ok elsewhere beyond st ->
  isValidUrl elsewhere url = true ->
  Spec.found_for_url o url st before chosen after ->
  creation_count chosen < integer_max ->
  create elsewhere beyond o fuel g now (Some url) None st
  = Returns (Incremented (Some (bump_creation now chosen)))
      {| rows := (before ++ bump_creation now chosen :: after)%list;
         next_id := next_id st |}.
Proof.
  intros Hok Hvalid Hfound Hroom.
  rewrite (create_found o fuel g now url st _ _ _ Hok Hvalid Hfound).
  assert (Hin : In chosen (rows st)).
  { destruct Hfound as [Hrows _]. rewrite Hrows. apply in_or_app. right. now left. }
  pose proof (ok_counts elsewhere beyond st Hok) as H. rewrite Forall_forall in H.
  specialize (H chosen Hin).
  assert (Hfit : in_integer (creation_count chosen + 1) = true)
    by (apply in_integer_spec; lia).
  now rewrite Hfit.
Qed.

Lemma create_same_url_full (o : row_order) (fuel : nat) (g : randomness) (now : Z)
  (url : string) (st : Store) (before after : list Link) (chosen : Link) :
  store_ok elsewhere beyond st ->
  isValidUrl elsewhere url = true ->
  Spec.found_for_url o url st before chosen after ->
  creation_count chosen = integer_max ->
  create elsewhere beyond o fuel g now (Some url) None st = Returns InternalError st.
Proof.
  intros Hok Hvalid Hfound Hfull.
  rewrite (create_found o fuel g now url st _ _ _ Hok Hvalid Hfound).
  now rewrite Hfull.
Qed.

(** A URL that no row holds character for character is not merged into a
    row: the answer is not an increment and the rows of before are kept. *)
Lemma create_other_url (o : row_order) (fuel : nat) (g : randomness) (now : Z)
  (other : string) (st : Store) (r : response) (st' : Store) :
  Forall (fun l => target_url l <> other) (rows st) ->
  create elsewhere beyond o fuel g now (Some other) None st = Returns r st' ->
  (forall row, r <> Incremented row)
  /\ exists added, rows st' = (rows st ++ added)%list.
Proof.
  intros Hnone Hcreate. apply create_returns in Hcreate.
  destruct Hcreate as [Hbad | | | code | x rest ? ? Hx ? | st' ? Hrows]; cbn [str] in *.
  - split; [discriminate | exists []; now rewrite app_nil_r].
  - discriminate.
  - discriminate.
  - split; [discriminate | eexists; reflexivity].
  - apply (select_by_url_none o other st _ Hnone) in Hx. discriminate.
  - split; [discriminate | exists []; now rewrite app_nil_r].
Qed.

(** C5, as the code has it: in a reachable store that holds a Link whose
    [target_url] is exactly the given string, [create] with no custom code
    for that string, a string that passes the URL check (to any other the
    handler answers InvalidURL before it looks anything up), inserts
    nothing.  It finds one Link with that URL, the first row its
    unordered SELECT returns (that Link when one only has the URL, any of
    them otherwise); it adds 1 to the [creation_count] of the Link found,
    sets its [updated_at] to the current time, changes no other field and
    no other row, and returns that Link, with the code it had, as
    incremented, when the count is below 2147483647, the capacity of its
    column; at the capacity the statement raises, the handler answers 500
    and nothing changes.  The match is string equality: a URL that no row
    holds character for character is never merged into an existing row. *)
Theorem create_same_url_increments :
  forall (st : Store) (url : string),
    reachable elsewhere beyond st ->
    (exists l, In l (rows st) /\ target_url l = url) ->
    isValidUrl elsewhere url = true ->
    (forall o fuel g now,
       exists before chosen after,
         Spec.found_for_url o url st before chosen after
         /\ (forall l, In l (rows st) ->
               (forall other, In other (rows st) -> target_url other = url -> other = l) ->
               chosen = l)
         /\ 1 <= creation_count chosen <= integer_max
         /\ (creation_count chosen < integer_max ->
             create elsewhere beyond o fuel g now (Some url) None st
             = Returns (Incremented (Some (bump_creation now chosen)))
                 {| rows := (before ++ bump_creation now chosen :: after)%list;
                    next_id := next_id st |}
             /\ List.length (before ++ bump_creation now chosen :: after)
                = List.length (rows st)
             /\ creation_count (bump_creation now chosen) = creation_count chosen + 1
             /\ updated_at (bump_creation now chosen) = now
             /\ short_code (bump_creation now chosen) = short_code chosen
             /\ id (bump_creation now chosen) = id chosen
             /\ target_url (bump_creation now chosen) = url
             /\ total_clicks (bump_creation now chosen) = total_clicks chosen
             /\ last_clicked (bump_creation now chosen) = last_clicked chosen
             /\ created_at (bump_creation now chosen) = created_at chosen)
         /\ (creation_count chosen = integer_max ->
             create elsewhere beyond o fuel g now (Some url) None st
             = Returns InternalError st))
    /\ (forall other o fuel g now r st',
          Forall (fun l => target_url l <> other) (rows st) ->
          create elsewhere beyond o fuel g now (Some other) None st = Returns r st' ->
          (forall row, r <> Incremented row)
          /\ exists added, rows st' = (rows st ++ added)%list)
    /\ (forall other o fuel g now sc,
          isValidUrl elsewhere other = false ->
          create elsewhere beyond o fuel g now (Some other) sc st
          = Returns InvalidURL st).
Proof.
  intros st url Hreach Hex Hvalid. pose proof (reachable_ok st Hreach) as Hok.
  split; [| split].
  3: { intros other o fuel g now sc Hbad. unfold create. cbn [str]. rewrite Hbad.
       now rewrite orb_true_r. }
  - intros o fuel g now.
    assert (Hnul : has_nul url = false).
    { destruct Hex as [l [Hl <-]].
      pose proof (ok_text elsewhere beyond st Hok) as H. rewrite Forall_forall in H.
      now apply H. }
    destruct (found_for_url_exists o url st Hnul Hex)
      as [before [chosen [after Hfound]]].
    exists before, chosen, after. split; [exact Hfound |].
    split; [intros l; now apply (found_for_url_only o url st before after) |].
    pose proof Hfound as [Hrows [Hurl _]].
    split.
    { pose proof (ok_counts elsewhere beyond st Hok) as H. rewrite Forall_forall in H.
      apply H. rewrite Hrows. apply in_or_app. right. now left. }
    split.
    + intros Hroom. split; [now apply create_same_url |].
      split; [rewrite Hrows, !length_app; reflexivity |].
      repeat split. exact Hurl.
    + intros Hfull. now apply (create_same_url_full o fuel g now url st before after chosen).
  - intros other o fuel g now r st'. apply create_other_url.
Qed.

(** ** Two Links for one URL *)

(** C10, as the code has it: [target_url] is not unique.  In a reachable
    store that holds a Link for a URL, [create] with that URL, a string
    that passes the URL check, and a well-formed custom code that no Link
    holds appends a second Link with the same [target_url], while the
    sequence has a value left.  A codeless
    [create] for the URL that follows finds one of the Links with the URL,
    the first row its unordered SELECT returns, and adds 1 to the
    [creation_count] of that Link only, when the count is below the
    capacity of its column; every other row is as it was.  At the capacity
    the statement raises and the handler answers 500. *)
Theorem target_url_not_unique :
  forall (st : Store) (url code : string),
    reachable elsewhere beyond st ->
    (exists l, In l (rows st) /\ target_url l = url) ->
    isValidUrl elsewhere url = true ->
    isValidCode code = true ->
    Spec.no_link code st ->
    next_id st <= integer_max ->
    forall o fuel g now,
      let second := new_row (next_id st) now code url 0 1 in
      let st1 := {| rows := (rows st ++ [second])%list;
                    next_id := next_id st + 1 |} in
      create elsewhere beyond o fuel g now (Some url) (Some code) st
      = Returns (Created (Some second)) st1
      /\ target_url second = url
      /\ creation_count second = 1
      /\ (exists first, In first (rows st) /\ target_url first = url
                        /\ short_code first <> short_code second)
      /\ forall o' fuel' g' now',
           exists before chosen after,
             Spec.found_for_url o' url st1 before chosen after
             /\ (creation_count chosen < integer_max ->
                 create elsewhere beyond o' fuel' g' now' (Some url) None st1
                 = Returns (Incremented (Some (bump_creation now' chosen)))
                     {| rows := (before ++ bump_creation now' chosen :: after)%list;
                        next_id := next_id st1 |}
                 /\ creation_count (bump_creation now' chosen)
                    = creation_count chosen + 1)
             /\ (creation_count chosen = integer_max ->
                 create elsewhere beyond o' fuel' g' now' (Some url) None st1
                 = Returns InternalError st1).
Proof.
  intros st url code Hreach [first [Hin Hurl]] Hvalid Hcode Hfresh Hseq o fuel g now
         second st1.
  pose proof (reachable_ok st Hreach) as Hok.
  assert (Hnul : has_nul url = false).
  { pose proof (ok_text elsewhere beyond st Hok) as H. rewrite Forall_forall in H.
    rewrite <- Hurl. now apply H. }
  assert (Hfits : index_fits beyond url = true).
  { pose proof (ok_index elsewhere beyond st Hok) as H. rewrite Forall_forall in H.
    rewrite <- Hurl. now apply H. }
  assert (Hsel : select_by_code code st = []) by now apply no_link_select.
  assert (Hok1 : store_ok elsewhere beyond st1) by now apply store_ok_insert.
  split; [now apply create_custom_fresh |].
  split; [reflexivity |]. split; [reflexivity |].
  split.
  { exists first. split; [assumption |]. split; [assumption |].
    intros Heq. now apply (Hfresh first Hin). }
  intros o' fuel' g' now'.
  destruct (found_for_url_exists o' url st1 Hnul) as [before [chosen [after Hfound]]].
  { exists second. split; [| reflexivity]. cbn. apply in_or_app. right. now left. }
  exists before, chosen, after. split; [exact Hfound |].
  split.
  - intros Hroom. split; [now apply create_same_url | reflexivity].
  - intros Hfull.
    now apply (create_same_url_full o' fuel' g' now' url st1 before after chosen).
Qed.

(** ** The allocation loop *)

(** The loop entered with the [n]-th candidate, which is free, returns it. *)
Lemma unique_code_free (g : randomness) (st : Store) (fuel : nat)
  (code : string) (k : nat) :
  select_by_code code st = [] ->
  unique_code (S fuel) g code k st = Some code.
Proof. intros H. cbn. now rewrite H. Qed.

Lemma unique_code_taken (g : randomness) (st : Store) (fuel : nat)
  (code : string) (k : nat) :
  select_by_code code st <> [] ->
  unique_code (S fuel) g code k st
  = unique_code fuel g (fst (generateShortCode g k)) (snd (generateShortCode g k)) st.
Proof.
  intros H. cbn. destruct (select_by_code code st) as [| x l]; [contradiction |].
  cbn. now destruct (generateShortCode g k).
Qed.

(** The loop started at position [k], all of whose first [n] candidates are
    taken: it is still running after [n] iterations, and it returns the
    [n]-th candidate when that one is free. *)
Lemma unique_code_candidates (g : randomness) (st : Store) (n : nat) :
  forall k,
    (forall i, (i < n)%nat -> select_by_code (fst (candidate g i k)) st <> []) ->
    (forall fuel, (fuel <= n)%nat ->
       unique_code fuel g (fst (generateShortCode g k)) (snd (generateShortCode g k)) st
       = None)
    /\ (select_by_code (fst (candidate g n k)) st = [] ->
        forall fuel, (n < fuel)%nat ->
          unique_code fuel g (fst (generateShortCode g k)) (snd (generateShortCode g k)) st
          = Some (fst (candidate g n k))).
Proof.
  induction n as [| n IH]; intros k Htaken.
  - split.
    + intros fuel Hfuel. replace fuel with 0%nat by lia. reflexivity.
    + intros Hfree fuel Hfuel. destruct fuel as [| fuel]; [lia |].
      now apply unique_code_free.
  - assert (H0 : select_by_code (fst (generateShortCode g k)) st <> []).
    { apply (Htaken 0%nat). lia. }
    destruct (IH (snd (generateShortCode g k))) as [IHnone IHsome].
    { intros i Hi. apply (Htaken (S i)). lia. }
    split.
    + intros fuel Hfuel. destruct fuel as [| fuel]; [reflexivity |].
      rewrite (unique_code_taken g st fuel _ _ H0). apply IHnone. lia.
    + intros Hfree fuel Hfuel. destruct fuel as [| fuel]; [lia |].
      rewrite (unique_code_taken g st fuel _ _ H0). apply IHsome; [exact Hfree | lia].
Qed.

Lemma allocate_unfold (fuel : nat) (g : randomness) (st : Store) :
  allocate fuel g st
  = unique_code fuel g (fst (generateShortCode g 0)) (snd (generateShortCode g 0)) st.
Proof. unfold allocate. now destruct (generateShortCode g 0). Qed.

(** C4, as the code has it: the loop has no retry cap and no exhaustion
    error.  After any number [n] of candidates that are all taken it is
    still running, and it returns, with the first candidate that no row
    holds, exactly when such a candidate is drawn. *)
Theorem allocation_is_unbounded :
  forall (g : randomness) (st : Store) (n : nat),
    (forall i, (i < n)%nat -> select_by_code (fst (candidate g i 0)) st <> []) ->
    (forall fuel, (fuel <= n)%nat -> allocate fuel g st = None)
    /\ (select_by_code (fst (candidate g n 0)) st = [] ->
        forall fuel, (n < fuel)%nat ->
          allocate fuel g st = Some (fst (candidate g n 0))).
Proof.
  intros g st n Htaken.
  destruct (unique_code_candidates g st n 0 Htaken) as [Hnone Hsome].
  split.
  - intros fuel Hfuel. rewrite allocate_unfold. now apply Hnone.
  - intros Hfree fuel Hfuel. rewrite allocate_unfold. now apply Hsome.
Qed.

(** ** The URL check *)

Lemma create_rejected_url (o : row_order) (fuel : nat) (g : randomness) (now : Z)
  (url sc : js_value) (st : Store) :
  truthy url = false \/ isValidUrl elsewhere (str url) = false ->
  create elsewhere beyond o fuel g now url sc st = Returns InvalidURL st.
Proof.
  intros [H | H]; unfold create; rewrite H; [reflexivity |].
  now rewrite orb_true_r.
Qed.

(** C2 does not hold of the code: [isValidUrl] accepts whatever the URL
    constructor parses, whatever its scheme, and [create] stores a Link for
    the absolute URL [ftp://example.com], whose scheme is neither http nor
    https, instead of answering InvalidURL. *)
Theorem create_accepts_ftp_url :
  (forall url scheme,
     Url.URL_new url = Url.Parsed scheme -> isValidUrl elsewhere url = true)
  /\ Url.URL_new "ftp://example.com" = Url.Parsed "ftp"
  /\ (forall o,
        create elsewhere beyond o 0 Examples.zeros 10 (Some "ftp://example.com")
          (Some "abcdef") empty
        = Returns (Created (Some (new_row 1 10 "abcdef" "ftp://example.com" 0 1)))
            {| rows := [new_row 1 10 "abcdef" "ftp://example.com" 0 1]; next_id := 2 |}).
Proof.
  split; [| split; [reflexivity |]].
  - intros url scheme H. unfold isValidUrl. now rewrite H.
  - intros o. reflexivity.
Qed.

End Properties.

(** * Sample stores that requests lead to *)

Section SampleStores.

Variable elsewhere : string -> bool.
Variable beyond : string -> bool.

(** A click on [AAAAAA] below the capacity. *)
Lemma click_one_clicked (c : Z) :
  0 <= c < integer_max ->
  recordClick 20 "AAAAAA" (Examples.one_clicked c)
  = (Redirect "https://google.com", Examples.one_clicked (c + 1)).
Proof.
  intros Hc. unfold recordClick.
  unfold update_clicks, update, Examples.one_clicked. cbn.
  assert (Hfit : in_integer (c + 1) = true) by (apply in_integer_spec; lia).
  rewrite Hfit. cbn. unfold Examples.clicked, bump_clicks. cbn.
  assert (Hpos : (c + 1 =? 0) = false) by (apply Z.eqb_neq; lia).
  now rewrite Hpos.
Qed.

Lemma reachable_one_clicked (c : Z) :
  0 <= c <= integer_max -> reachable elsewhere beyond (Examples.one_clicked c).
Proof.
  intros [H0 Hmax]. revert Hmax. pattern c. apply natlike_ind; [| | exact H0].
  - intros _. apply reachable_one_link.
  - intros x Hx IH Hmax. apply (reach_step _ _ (Examples.one_clicked x)); [apply IH; lia |].
    replace (Examples.one_clicked (Z.succ x))
      with (snd (recordClick 20 "AAAAAA" (Examples.one_clicked x)));
      [apply step_click |].
    rewrite click_one_clicked by lia. reflexivity.
Qed.

(** The URL of [google] submitted again, below the capacity. *)
Lemma create_one_resubmitted (o : row_order) (fuel : nat) (g : randomness) (c : Z) :
  1 <= c < integer_max ->
  create elsewhere beyond o fuel g 20 (Some "https://google.com") None
    (Examples.one_resubmitted c)
  = Returns (Incremented (Some (Examples.resubmitted (c + 1))))
      (Examples.one_resubmitted (c + 1)).
Proof.
  intros Hc. unfold create. cbn [truthy str negb orb andb String.eqb Ascii.eqb Bool.eqb].
  replace (isValidUrl elsewhere "https://google.com") with true by reflexivity.
  cbn [negb].
  unfold select_by_url, Examples.one_resubmitted. cbn [rows filter target_url
    Examples.resubmitted String.eqb Ascii.eqb Bool.eqb has_nul orb].
  rewrite scan_one. unfold update_creation_count, update. cbn.
  assert (Hfit : in_integer (c + 1) = true) by (apply in_integer_spec; lia).
  rewrite Hfit. cbn. unfold Examples.resubmitted, bump_creation. cbn.
  assert (Hpos : (c + 1 =? 1) = false) by (apply Z.eqb_neq; lia).
  now rewrite Hpos.
Qed.

Lemma reachable_one_resubmitted (c : Z) :
  1 <= c <= integer_max -> reachable elsewhere beyond (Examples.one_resubmitted c).
Proof.
  intros [H1 Hmax].
  assert (H : forall d, 0 <= d -> d + 1 <= integer_max ->
                        reachable elsewhere beyond (Examples.one_resubmitted (d + 1))).
  2: { replace c with (c - 1 + 1) by lia. apply H; lia. }
  intros d Hd. pattern d. apply natlike_ind; [| | exact Hd].
  - intros _. apply reachable_one_link.
  - intros x Hx IH Hx1.
    apply (reach_step _ _ (Examples.one_resubmitted (x + 1))); [apply IH; lia |].
    apply (step_create elsewhere beyond Examples.table_order 0%nat Examples.zeros 20
             (Some "https://google.com") None _
             (Incremented (Some (Examples.resubmitted (Z.succ x + 1))))).
    replace (Z.succ x + 1) with (x + 1 + 1) by lia.
    apply create_one_resubmitted. lia.
Qed.

(** A Link created under [BBBBBB] and deleted spends an id. *)
Lemma create_at (o : row_order) (fuel : nat) (g : randomness) (n : Z) :
  n <= integer_max ->
  create elsewhere beyond o fuel g 20 (Some "https://google.com") (Some "BBBBBB")
    (Examples.one_link_at n)
  = Returns (Created (Some (new_row n 20 "BBBBBB" "https://google.com" 0 1)))
      {| rows := [Examples.google; new_row n 20 "BBBBBB" "https://google.com" 0 1];
         next_id := n + 1 |}.
Proof.
  intros Hn.
  now rewrite (create_custom_fresh elsewhere beyond o fuel g 20 "https://google.com"
                 "BBBBBB" (Examples.one_link_at n)).
Qed.

Lemma reachable_one_link_at (n : Z) :
  2 <= n <= integer_max + 1 -> reachable elsewhere beyond (Examples.one_link_at n).
Proof.
  intros [H2 Hmax].
  assert (H : forall d, 0 <= d -> d + 2 <= integer_max + 1 ->
                        reachable elsewhere beyond (Examples.one_link_at (d + 2))).
  2: { replace n with (n - 2 + 2) by lia. apply H; lia. }
  intros d Hd. pattern d. apply natlike_ind; [| | exact Hd].
  - intros _. apply reachable_one_link.
  - intros x Hx IH Hx1.
    apply (reach_step _ _
             {| rows := [Examples.google;
                         new_row (x + 2) 20 "BBBBBB" "https://google.com" 0 1];
                next_id := x + 2 + 1 |}).
    + apply (reach_step _ _ (Examples.one_link_at (x + 2))); [apply IH; lia |].
      apply (step_create elsewhere beyond Examples.table_order 0%nat Examples.zeros 20
               (Some "https://google.com") (Some "BBBBBB") _
               (Created (Some (new_row (x + 2) 20 "BBBBBB" "https://google.com" 0 1)))).
      apply create_at. lia.
    + replace (Examples.one_link_at (Z.succ x + 2))
        with (snd (delete "BBBBBB"
                     {| rows := [Examples.google;
                                 new_row (x + 2) 20 "BBBBBB" "https://google.com" 0 1];
                        next_id := x + 2 + 1 |}));
        [apply step_delete |].
      unfold Examples.one_link_at. cbn. f_equal. lia.
Qed.

Lemma reachable_two_links : reachable elsewhere beyond Examples.two_links.
Proof.
  apply (reach_step _ _ Examples.one_link); [apply reachable_one_link |].
  apply (step_create elsewhere beyond Examples.table_order 0%nat Examples.zeros 20
           (Some "https://google.com") (Some "BBBBBB") _
           (Created (Some Examples.google_again))).
  exact (create_at Examples.table_order 0%nat Examples.zeros 2 ltac:(unfold integer_max; lia)).
Qed.

Lemma reachable_two_links_full : reachable elsewhere beyond Examples.two_links_full.
Proof.
  apply (reach_step _ _ (Examples.one_resubmitted integer_max)).
  - apply reachable_one_resubmitted. unfold integer_max. lia.
  - apply (step_create elsewhere beyond Examples.table_order 0%nat Examples.zeros 20
             (Some "https://google.com") (Some "BBBBBB") _
             (Created (Some Examples.google_again))).
    now rewrite (create_custom_fresh elsewhere beyond _ _ _ 20 "https://google.com"
                   "BBBBBB" (Examples.one_resubmitted integer_max)).
Qed.

End SampleStores.

(** * The properties on sample stores *)

Lemma lookups_do_not_validate_code_witness :
  isValidCode "abc-123" = false
  /\ Spec.no_link "abc-123" Examples.one_link
  /\ has_nul "abc-123" = false
  /\ get "abc-123" Examples.one_link = (NotFound, Examples.one_link)
  /\ delete "abc-123" Examples.one_link = (NotFound, Examples.one_link)
  /\ recordClick 20 "abc-123" Examples.one_link = (NotFound, Examples.one_link).
Proof.
  assert (H : Spec.no_link "abc-123" Examples.one_link).
  { intros r [<- | []]. discriminate. }
  split; [reflexivity |]. split; [exact H |]. split; [reflexivity |].
  destruct (lookups_do_not_validate_code Examples.one_link "abc-123" 20 eq_refl H)
    as [Hplain _].
  exact (Hplain eq_refl).
Defined.

(** C9 as the specification states it fails: the code [a<U+0000>b] fails
    the pattern and matches no stored code, and the three lookups answer
    500, not NotFound. *)
Lemma lookups_nul_code_counterexample :
  (forall elsewhere beyond, reachable elsewhere beyond Examples.one_link)
  /\ isValidCode Examples.nul_code = false
  /\ Spec.no_link Examples.nul_code Examples.one_link
  /\ get Examples.nul_code Examples.one_link = (InternalError, Examples.one_link)
  /\ delete Examples.nul_code Examples.one_link = (InternalError, Examples.one_link)
  /\ recordClick 20 Examples.nul_code Examples.one_link
     = (InternalError, Examples.one_link)
  /\ fst (get Examples.nul_code Examples.one_link) <> NotFound
  /\ fst (delete Examples.nul_code Examples.one_link) <> NotFound
  /\ fst (recordClick 20 Examples.nul_code Examples.one_link) <> NotFound.
Proof.
  split; [exact reachable_one_link |]. split; [reflexivity |].
  split; [intros r [<- | []]; discriminate |].
  repeat (split; [reflexivity || discriminate |]). discriminate.
Qed.

Lemma failing_operations_do_not_mutate_witness :
  Spec.no_link "zzzzzz" Examples.one_link
  /\ has_nul "zzzzzz" = false
  /\ get "zzzzzz" Examples.one_link = (NotFound, Examples.one_link)
  /\ delete "zzzzzz" Examples.one_link = (NotFound, Examples.one_link)
  /\ recordClick 20 "zzzzzz" Examples.one_link = (NotFound, Examples.one_link)
  /\ create Examples.rejecting Examples.short_rows Examples.table_order 0 Examples.zeros
       20 (Some "https://x.com") (Some "AAAAAA") Examples.one_link
     = Returns CodeConflict Examples.one_link.
Proof.
  assert (H : Spec.no_link "zzzzzz" Examples.one_link).
  { intros r [<- | []]. discriminate. }
  destruct (failing_operations_do_not_mutate Examples.rejecting Examples.short_rows
              Examples.one_link "zzzzzz") as [Hlookups _].
  destruct (Hlookups H) as [Hplain _].
  destruct (Hplain eq_refl) as [Hget [Hdel Hclick]].
  split; [exact H |]. split; [reflexivity |].
  split; [exact Hget |]. split; [exact Hdel |].
  split; [apply Hclick | reflexivity].
Defined.

(** C8 as the specification states it fails: no Link has the code
    [a<U+0000>b], and [get], [delete] and [recordClick] fail on it with
    500, not with NotFound; the store is as it was. *)
Lemma failing_lookup_nul_code_counterexample :
  (forall elsewhere beyond, reachable elsewhere beyond Examples.one_link)
  /\ Spec.no_link Examples.nul_code Examples.one_link
  /\ get Examples.nul_code Examples.one_link = (InternalError, Examples.one_link)
  /\ delete Examples.nul_code Examples.one_link = (InternalError, Examples.one_link)
  /\ recordClick 20 Examples.nul_code Examples.one_link
     = (InternalError, Examples.one_link)
  /\ ~ Spec.absent_is_not_found Examples.nul_code Examples.one_link.
Proof.
  assert (H : Spec.no_link Examples.nul_code Examples.one_link).
  { intros r [<- | []]. discriminate. }
  split; [exact reachable_one_link |]. split; [exact H |].
  split; [reflexivity |]. split; [reflexivity |]. split; [reflexivity |].
  intros Hclaim. destruct (Hclaim H) as [Hget _]. discriminate Hget.
Qed.

Lemma recordClick_existing_witness :
  reachable Examples.rejecting Examples.short_rows Examples.one_link
  /\ In Examples.google (rows Examples.one_link)
  /\ total_clicks Examples.google < integer_max
  /\ recordClick 20 "AAAAAA" Examples.one_link
     = (Redirect "https://google.com",
        {| rows := [bump_clicks 20 Examples.google]; next_id := 2 |}).
Proof.
  split; [exact (reachable_one_link Examples.rejecting Examples.short_rows) |].
  split; [now left |]. split; [reflexivity |].
  destruct (recordClick_existing Examples.rejecting Examples.short_rows
              Examples.one_link 20 Examples.google
              (reachable_one_link Examples.rejecting Examples.short_rows)
              (or_introl eq_refl))
    as [_ [Hroom _]].
  destruct (Hroom eq_refl) as [before [after [Hrows [_ [Hclick _]]]]].
  destruct before as [| x before].
  - injection Hrows as <-. exact Hclick.
  - destruct before; discriminate.
Defined.

(** C1 as the specification states it fails: a click leaves [updated_at]
    at the time of creation (10), not at the time of the click (20).  And a
    click on a Link that has been clicked 2147483647 times adds nothing:
    the statement raises and the handler answers 500. *)
Lemma recordClick_updated_at_counterexample :
  (forall elsewhere beyond, reachable elsewhere beyond Examples.one_link)
  /\ fst (recordClick 20 "AAAAAA" Examples.one_link) = Redirect "https://google.com"
  /\ map updated_at (rows (snd (recordClick 20 "AAAAAA" Examples.one_link))) = [10]
  /\ ~ Spec.click_stamps_updated_at 20 "AAAAAA" Examples.one_link
  /\ (forall elsewhere beyond,
        reachable elsewhere beyond (Examples.one_clicked integer_max))
  /\ recordClick 30 "AAAAAA" (Examples.one_clicked integer_max)
     = (InternalError, Examples.one_clicked integer_max).
Proof.
  split; [exact reachable_one_link |].
  split; [reflexivity |]. split; [reflexivity |].
  split.
  { intros H.
    specialize (H (bump_clicks 20 Examples.google) (or_introl eq_refl) eq_refl).
    discriminate. }
  split; [| reflexivity].
  intros elsewhere beyond. apply reachable_one_clicked. unfold integer_max. lia.
Qed.

Lemma codes_stay_unique_witness :
  reachable Examples.rejecting Examples.short_rows Examples.one_link
  /\ Spec.unique_codes Examples.one_link
  /\ create Examples.rejecting Examples.short_rows Examples.table_order 0 Examples.zeros
       20 (Some "https://x.com") (Some "AAAAAA") Examples.one_link
     = Returns CodeConflict Examples.one_link
  /\ create Examples.rejecting Examples.short_rows Examples.table_order 0 Examples.zeros
       30 (Some "https://x.com") (Some "AAAAAA")
       (snd (delete "AAAAAA" Examples.one_link))
     = Returns (Created (Some (new_row 2 30 "AAAAAA" "https://x.com" 0 1)))
         {| rows := [new_row 2 30 "AAAAAA" "https://x.com" 0 1]; next_id := 3 |}.
Proof.
  destruct (codes_stay_unique Examples.rejecting Examples.short_rows Examples.one_link
              (reachable_one_link Examples.rejecting Examples.short_rows))
    as [Huniq [Hconflict [_ Hreuse]]].
  split; [exact (reachable_one_link Examples.rejecting Examples.short_rows) |].
  split; [exact Huniq |].
  split.
  - exact (Hconflict Examples.table_order 0%nat Examples.zeros 20 (Some "https://x.com")
             Examples.google (or_introl eq_refl)).
  - refine (proj2 (Hreuse Examples.table_order 0%nat Examples.zeros 30 "https://x.com"
                     "AAAAAA" eq_refl eq_refl eq_refl eq_refl _)).
    cbn. unfold integer_max. lia.
Defined.

Lemma create_same_url_increments_witness :
  reachable Examples.rejecting Examples.short_rows Examples.one_link
  /\ (exists l, In l (rows Examples.one_link) /\ target_url l = "https://google.com")
  /\ isValidUrl Examples.rejecting "https://google.com" = true
  /\ creation_count Examples.google < integer_max
  /\ create Examples.rejecting Examples.short_rows Examples.last_row_first 0
       Examples.zeros 20 (Some "https://google.com") None Examples.one_link
     = Returns (Incremented (Some (bump_creation 20 Examples.google)))
         {| rows := [bump_creation 20 Examples.google]; next_id := 2 |}.
Proof.
  assert (Hex : exists l, In l (rows Examples.one_link)
                          /\ target_url l = "https://google.com").
  { exists Examples.google. split; [now left | reflexivity]. }
  split; [exact (reachable_one_link Examples.rejecting Examples.short_rows) |].
  split; [exact Hex |]. split; [reflexivity |]. split; [reflexivity |].
  destruct (create_same_url_increments Examples.rejecting Examples.short_rows
              Examples.one_link "https://google.com"
              (reachable_one_link Examples.rejecting Examples.short_rows) Hex eq_refl)
    as [Hfound _].
  destruct (Hfound Examples.last_row_first 0%nat Examples.zeros 20)
    as [before [chosen [after [[Hrows _] [_ [_ [Hcreate _]]]]]]].
  destruct before as [| x before].
  - injection Hrows as <- <-. exact (proj1 (Hcreate eq_refl)).
  - destruct before; discriminate.
Defined.

(** C5 as the specification states it fails: the URL of a Link submitted
    2147483647 times is submitted again, and no count is incremented: the
    statement raises and the handler answers 500, the store as it was. *)
Lemma resubmission_at_capacity_counterexample :
  (forall elsewhere beyond,
     reachable elsewhere beyond (Examples.one_resubmitted integer_max))
  /\ In (Examples.resubmitted integer_max) (rows (Examples.one_resubmitted integer_max))
  /\ target_url (Examples.resubmitted integer_max) = "https://google.com"
  /\ (forall elsewhere beyond o fuel g now,
        create elsewhere beyond o fuel g now (Some "https://google.com") None
          (Examples.one_resubmitted integer_max)
        = Returns InternalError (Examples.one_resubmitted integer_max))
  /\ (forall elsewhere beyond o fuel g now,
        ~ Spec.resubmission_increments elsewhere beyond o fuel g now
            "https://google.com" (Examples.one_resubmitted integer_max)).
Proof.
  assert (Hreach : forall elsewhere beyond,
            reachable elsewhere beyond (Examples.one_resubmitted integer_max)).
  { intros elsewhere beyond. apply reachable_one_resubmitted. unfold integer_max. lia. }
  assert (Hcreate : forall elsewhere beyond o fuel g now,
            create elsewhere beyond o fuel g now (Some "https://google.com") None
              (Examples.one_resubmitted integer_max)
            = Returns InternalError (Examples.one_resubmitted integer_max)).
  { intros elsewhere beyond o fuel g now.
    apply (create_same_url_full elsewhere beyond o fuel g now "https://google.com"
             (Examples.one_resubmitted integer_max) []
             [] (Examples.resubmitted integer_max));
      [apply reachable_ok, Hreach | reflexivity | | reflexivity].
    split; [reflexivity |]. split; [reflexivity |]. exists [].
    unfold select_by_url. cbn [rows Examples.one_resubmitted filter target_url
      Examples.resubmitted String.eqb Ascii.eqb Bool.eqb has_nul orb].
    now rewrite scan_one. }
  split; [exact Hreach |]. split; [now left |]. split; [reflexivity |].
  split; [exact Hcreate |].
  intros elsewhere beyond o fuel g now [l [st' [_ [_ H]]]].
  rewrite Hcreate in H. discriminate.
Qed.

Lemma target_url_not_unique_witness :
  reachable Examples.rejecting Examples.short_rows Examples.one_link
  /\ (exists l, In l (rows Examples.one_link) /\ target_url l = "https://google.com")
  /\ isValidUrl Examples.rejecting "https://google.com" = true
  /\ isValidCode "BBBBBB" = true
  /\ Spec.no_link "BBBBBB" Examples.one_link
  /\ next_id Examples.one_link <= integer_max
  /\ create Examples.rejecting Examples.short_rows Examples.table_order 0 Examples.zeros
       20 (Some "https://google.com") (Some "BBBBBB") Examples.one_link
     = Returns (Created (Some Examples.google_again)) Examples.two_links
  /\ exists before chosen after,
       Spec.found_for_url Examples.table_order "https://google.com" Examples.two_links
         before chosen after
       /\ (creation_count chosen < integer_max ->
           create Examples.rejecting Examples.short_rows Examples.table_order 0
             Examples.zeros 30 (Some "https://google.com") None Examples.two_links
           = Returns (Incremented (Some (bump_creation 30 chosen)))
               {| rows := (before ++ bump_creation 30 chosen :: after)%list;
                  next_id := 3 |}).
Proof.
  assert (Hex : exists l, In l (rows Examples.one_link)
                          /\ target_url l = "https://google.com").
  { exists Examples.google. split; [now left | reflexivity]. }
  assert (Hfresh : Spec.no_link "BBBBBB" Examples.one_link).
  { intros r [<- | []]. discriminate. }
  assert (Hseq : next_id Examples.one_link <= integer_max).
  { cbn. unfold integer_max. lia. }
  split; [exact (reachable_one_link Examples.rejecting Examples.short_rows) |].
  split; [exact Hex |]. split; [reflexivity |].
  split; [reflexivity |]. split; [exact Hfresh |]. split; [exact Hseq |].
  destruct (target_url_not_unique Examples.rejecting Examples.short_rows
              Examples.one_link "https://google.com" "BBBBBB"
              (reachable_one_link Examples.rejecting Examples.short_rows)
              Hex eq_refl eq_refl Hfresh Hseq Examples.table_order 0%nat
              Examples.zeros 20)
    as [Hcustom [_ [_ [_ Hcodeless]]]].
  split; [exact Hcustom |].
  destruct (Hcodeless Examples.table_order 0%nat Examples.zeros 30)
    as [before [chosen [after [Hfound [Hbump _]]]]].
  exists before, chosen, after. split; [exact Hfound |].
  intros Hroom. exact (proj1 (Hbump Hroom)).
Defined.

(** C10 as the specification states it fails.  With two Links for one URL,
    the codeless [create] increments the Link its SELECT returns first:
    when that is the row inserted last, the first Link keeps its count.
    When the sequence is at its end no second Link is inserted, and when
    the Link found is at the capacity of its count no count is
    incremented: the handler answers 500. *)
Lemma target_url_not_unique_counterexample :
  (forall elsewhere beyond, reachable elsewhere beyond Examples.two_links)
  /\ (forall elsewhere beyond fuel g,
        create elsewhere beyond Examples.last_row_first fuel g 30
          (Some "https://google.com") None Examples.two_links
        = Returns (Incremented (Some (bump_creation 30 Examples.google_again)))
            {| rows := [Examples.google; bump_creation 30 Examples.google_again];
               next_id := 3 |})
  /\ creation_count Examples.google = 1
  /\ creation_count (bump_creation 30 Examples.google_again) = 2
  /\ (forall elsewhere beyond,
        reachable elsewhere beyond (Examples.one_link_at (integer_max + 1)))
  /\ (forall elsewhere beyond o fuel g now,
        create elsewhere beyond o fuel g now (Some "https://google.com") (Some "BBBBBB")
          (Examples.one_link_at (integer_max + 1))
        = Returns InternalError (Examples.one_link_at (integer_max + 1)))
  /\ (forall elsewhere beyond, reachable elsewhere beyond Examples.two_links_full)
  /\ (forall elsewhere beyond fuel g now,
        create elsewhere beyond Examples.table_order fuel g now
          (Some "https://google.com") None Examples.two_links_full
        = Returns InternalError Examples.two_links_full).
Proof.
  split; [exact reachable_two_links |].
  split; [intros elsewhere beyond fuel g; reflexivity |].
  split; [reflexivity |]. split; [reflexivity |].
  split.
  { intros elsewhere beyond. apply reachable_one_link_at. unfold integer_max. lia. }
  split; [intros elsewhere beyond o fuel g now; reflexivity |].
  split; [exact reachable_two_links_full |].
  intros elsewhere beyond fuel g now. reflexivity.
Qed.

Lemma allocation_is_unbounded_witness :
  (forall i, (i < 1)%nat ->
     select_by_code (fst (candidate Examples.zeros_then_halves i 0)) Examples.one_link
     <> [])
  /\ allocate 1 Examples.zeros_then_halves Examples.one_link = None
  /\ allocate 2 Examples.zeros_then_halves Examples.one_link = Some "fffffff".
Proof.
  assert (H : forall i, (i < 1)%nat ->
     select_by_code (fst (candidate Examples.zeros_then_halves i 0)) Examples.one_link
     <> []).
  { intros i Hi. replace i with 0%nat by lia. discriminate. }
  split; [exact H |].
  destruct (allocation_is_unbounded Examples.zeros_then_halves Examples.one_link 1 H)
    as [Hnone Hsome].
  split.
  - apply Hnone. lia.
  - apply (Hsome eq_refl 2%nat). lia.
Defined.

Lemma generateShortCode_zeros (k : nat) :
  generateShortCode Examples.zeros k = ("AAAAAA", (7 + k)%nat).
Proof. reflexivity. Qed.

Lemma unique_code_zeros_diverges (fuel : nat) :
  forall k, unique_code fuel Examples.zeros "AAAAAA" k Examples.one_link = None.
Proof.
  induction fuel as [| fuel IH]; intros k; [reflexivity |].
  rewrite unique_code_taken by discriminate.
  rewrite generateShortCode_zeros. apply IH.
Qed.

(** C4 as the specification states it fails: with the code [AAAAAA] taken
    and a random source that keeps drawing it, the loop is still running
    after 1000 failed attempts, and after any number of them; the handler
    never answers, with an exhaustion error or otherwise. *)
Lemma allocation_never_exhausts_counterexample :
  (forall elsewhere beyond, reachable elsewhere beyond Examples.one_link)
  /\ allocate 1000 Examples.zeros Examples.one_link = None
  /\ (forall elsewhere beyond o,
        create elsewhere beyond o 1000 Examples.zeros 20 (Some "https://example.com")
          None Examples.one_link
        = Looping)
  /\ Spec.allocation_diverges Examples.zeros Examples.one_link.
Proof.
  assert (H : Spec.allocation_diverges Examples.zeros Examples.one_link).
  { intros fuel. rewrite allocate_unfold. apply unique_code_zeros_diverges. }
  split; [exact reachable_one_link |]. split; [apply H |].
  split; [| exact H].
  intros elsewhere beyond o. unfold create.
  replace (isValidUrl elsewhere (str (Some "https://example.com"))) with true
    by reflexivity.
  cbn [truthy str negb orb andb String.eqb Ascii.eqb Bool.eqb].
  replace (select_by_url o "https://example.com" Examples.one_link)
    with (Some (@nil Link))
    by (unfold select_by_url; cbn; now rewrite scan_nil).
  now rewrite H.
Qed.

(** * More of the code *)

Section MoreProperties.

(** What the URL constructor does outside the part of it that is modelled. *)
Variable elsewhere : string -> bool.

(** Which URLs of more than 1300 characters fit a row of the index. *)
Variable beyond : string -> bool.

(** ** The listing *)

Lemma insert_newest_perm (r : Link) (l : list Link) :
  Permutation (Listing.insert_newest r l) (r :: l).
Proof.
  induction l as [| x l IH]; cbn; [reflexivity |].
  destruct (created_at x <=? created_at r); [reflexivity |].
  rewrite IH. apply perm_swap.
Qed.

Lemma insert_newest_sorted (r : Link) (l : list Link) :
  StronglySorted (fun a b => created_at b <= created_at a) l ->
  StronglySorted (fun a b => created_at b <= created_at a) (Listing.insert_newest r l).
Proof.
  induction l as [| x l IH]; cbn; intros H.
  - repeat constructor.
  - inversion H as [| ? ? Hl Hx]; subst.
    destruct (created_at x <=? created_at r) eqn:E.
    + apply Z.leb_le in E. constructor; [assumption |].
      constructor; [assumption |].
      eapply Forall_impl; [| exact Hx]. cbn. intros a Ha. lia.
    + apply Z.leb_gt in E. constructor; [now apply IH |].
      apply (Permutation_Forall (x := r :: l)).
      * symmetry. apply insert_newest_perm.
      * constructor; [lia | assumption].
Qed.

(** X1: the listing sends every Link exactly once, newest first, and leaves
    the store as it was. *)
Theorem list_links_newest_first :
  forall st : Store,
    Permutation (fst (Listing.list_links st)) (rows st)
    /\ StronglySorted (fun a b => created_at b <= created_at a)
                      (fst (Listing.list_links st))
    /\ snd (Listing.list_links st) = st.
Proof.
  intros st. unfold Listing.list_links, Listing.select_all_newest_first. cbn [fst snd].
  split; [| split; [| reflexivity]].
  - induction (rows st) as [| r l IH]; cbn; [reflexivity |].
    rewrite insert_newest_perm. now constructor.
  - induction (rows st) as [| r l IH]; cbn; [constructor |].
    now apply insert_newest_sorted.
Qed.

(** ** The paths of the create handler *)

(** X2: with a URL that passes, a custom code that is not empty and fails
    the pattern is answered InvalidCode, the store left as it was, whether
    or not the URL is stored; an empty custom code is no custom code. *)
Theorem create_malformed_code :
  forall o fuel g now (url : js_value) (st : Store),
    (forall code,
       truthy url = true -> isValidUrl elsewhere (str url) = true ->
       code <> "" -> isValidCode code = false ->
       create elsewhere beyond o fuel g now url (Some code) st = Returns InvalidCode st)
    /\ create elsewhere beyond o fuel g now url (Some "") st
       = create elsewhere beyond o fuel g now url None st.
Proof.
  intros o fuel g now url st. split; [| reflexivity].
  intros code Hurl Hvalid Hne Hcode. unfold create.
  rewrite Hurl, Hvalid. cbn [negb orb str]. rewrite Hcode.
  now destruct code.
Qed.

Lemma candidate_valid (g : randomness) (n : nat) :
  forall k, isValidCode (fst (candidate g n k)) = true.
Proof.
  induction n as [| n IH]; intros k; cbn; [apply generateShortCode_valid | apply IH].
Qed.

(** The codeless create for a URL that no row holds, once the loop has had
    the iterations to reach the first free candidate. *)
Lemma create_allocates (o : row_order) (st : Store) (url : string) (n fuel : nat)
  (g : randomness) (now : Z) :
  isValidUrl elsewhere url = true ->
  select_by_url o url st = Some [] ->
  (forall i, (i < n)%nat -> select_by_code (fst (candidate g i 0)) st <> []) ->
  select_by_code (fst (candidate g n 0)) st = [] ->
  (n < fuel)%nat ->
  create elsewhere beyond o fuel g now (Some url) None st
  = insert_and_answer beyond now (fst (candidate g n 0)) url st.
Proof.
  intros Hurl Hnew Htaken Hfree Hfuel.
  unfold create. rewrite (isValidUrl_truthy elsewhere url Hurl).
  cbn [negb orb andb str truthy]. rewrite Hurl. cbn [negb].
  rewrite Hnew.
  destruct (unique_code_candidates g st n 0 Htaken) as [_ Hsome].
  now rewrite allocate_unfold, (Hsome Hfree fuel Hfuel).
Qed.

(** X3: a URL that passes and fits the index, for which the lookup by URL
    runs (the URL holds no U+0000) and returns no row, submitted without a
    custom code while the sequence has a value left, is stored under the
    first candidate that no row holds, once the loop has had the iterations
    to reach it: the new Link has that code, which is well formed, no
    click, a creation count of 1, no [last_clicked], both timestamps at the
    current time and the next id. *)
Theorem create_new_url :
  forall (o : row_order) (st : Store) (url : string) (n fuel : nat)
         (g : randomness) (now : Z),
    isValidUrl elsewhere url = true ->
    index_fits beyond url = true ->
    next_id st <= integer_max ->
    select_by_url o url st = Some [] ->
    (forall i, (i < n)%nat -> select_by_code (fst (candidate g i 0)) st <> []) ->
    select_by_code (fst (candidate g n 0)) st = [] ->
    (n < fuel)%nat ->
    create elsewhere beyond o fuel g now (Some url) None st
    = Returns
        (Created (Some (new_row (next_id st) now (fst (candidate g n 0)) url 0 1)))
        {| rows := (rows st
                    ++ [new_row (next_id st) now (fst (candidate g n 0)) url 0 1])%list;
           next_id := next_id st + 1 |}
    /\ isValidCode (fst (candidate g n 0)) = true.
Proof.
  intros o st url n fuel g now Hurl Hfits Hseq Hnew Htaken Hfree Hfuel.
  split; [| apply candidate_valid].
  rewrite (create_allocates o st url n fuel g now) by assumption.
  apply insert_and_answer_fresh; try assumption; [apply candidate_valid |].
  unfold select_by_url in Hnew. now destruct (has_nul url).
Qed.

(** X4: a create that inserts can be read back.  With a URL that passes,
    holds no U+0000 and fits the index, and a well-formed custom code that
    no Link holds, [create] appends one Link while the sequence has a value
    left (no click, creation count 1, no [last_clicked], both timestamps
    now); [get] then returns exactly that Link and the redirect goes to its
    URL. *)
Theorem create_then_lookup :
  forall (o : row_order) (st : Store) (url code : string) (fuel : nat)
         (g : randomness) (now t : Z),
    isValidUrl elsewhere url = true ->
    has_nul url = false ->
    index_fits beyond url = true ->
    next_id st <= integer_max ->
    isValidCode code = true ->
    Spec.no_link code st ->
    let row := new_row (next_id st) now code url 0 1 in
    let st' := {| rows := (rows st ++ [row])%list; next_id := next_id st + 1 |} in
    create elsewhere beyond o fuel g now (Some url) (Some code) st
    = Returns (Created (Some row)) st'
    /\ get code st' = (Stats (Some row), st')
    /\ fst (recordClick t code st') = Redirect url
    /\ total_clicks row = 0 /\ creation_count row = 1 /\ last_clicked row = None
    /\ created_at row = now /\ updated_at row = now.
Proof.
  intros o st url code fuel g now t Hurl Hnul Hfits Hseq Hcode Hfresh row st'.
  pose proof Hfresh as Hsel. apply no_link_select in Hsel.
  assert (Hone : filter (fun r => (short_code r =? code)%string) (rows st') = [row]).
  { cbn [rows st']. rewrite filter_app. unfold select_by_code in Hsel. rewrite Hsel.
    cbn. now rewrite String.eqb_refl. }
  pose proof (has_nul_code code Hcode) as Hc.
  split; [now apply create_custom_fresh |].
  split; [unfold get; rewrite (select_link_runs _ _ Hc); unfold select_by_code;
          now rewrite Hone |].
  split; [| repeat split].
  unfold recordClick, update_clicks, update. rewrite Hc, Hone. reflexivity.
Qed.

Lemma same_id_same_row (st : Store) (a b : Link) :
  NoDup (map id (rows st)) -> In a (rows st) -> In b (rows st) -> id a = id b -> a = b.
Proof.
  intros Hnd Ha Hb Hid. destruct (in_split _ _ Ha) as [before [after Hrows]].
  rewrite Hrows in Hnd, Hb.
  apply in_app_or in Hb. destruct Hb as [Hb | [Hb | Hb]]; [| now symmetry |].
  - destruct (NoDup_map_others _ _ _ _ Hnd b); [apply in_or_app; now left | now symmetry].
  - destruct (NoDup_map_others _ _ _ _ Hnd b); [apply in_or_app; now right | now symmetry].
Qed.

(** The row a create answers with is in the store afterwards. *)
Lemma create_answer_kinds (o : row_order) (fuel : nat) (g : randomness) (now : Z)
  (url sc : js_value) (st : Store) (r : response) (st' : Store) :
  create elsewhere beyond o fuel g now url sc st = Returns r st' ->
  r = InvalidURL \/ r = InvalidCode \/ r = CodeConflict \/ r = InternalError
  \/ (exists row, r = Created (Some row) /\ In row (rows st'))
  \/ (exists row, r = Incremented (Some row) /\ In row (rows st')).
Proof.
  intros H. apply create_returns in H.
  destruct H as [? | ? ? ? | ? ? ? ? | code ? ? ? ? | first rest ? ? Hsel ? | ]; auto.
  - right. right. right. right. left. eexists. split; [reflexivity |].
    cbn. apply in_or_app. right. now left.
  - right. right. right. right. right.
    assert (Hin : In first (rows st)).
    { assert (Hf : In first (first :: rest)) by now left.
      now apply (select_by_url_in o (str url) st _ first Hsel) in Hf. }
    unfold update. cbn [fst snd rows].
    destruct (filter (fun r => id r =? id first) (rows st)) as [| x l] eqn:Hf.
    + assert (Hx : In first (filter (fun r => id r =? id first) (rows st))).
      { apply filter_In. split; [assumption | apply Z.eqb_refl]. }
      rewrite Hf in Hx. destruct Hx.
    + exists (bump_creation now x). split; [reflexivity |].
      assert (Hx : In x (filter (fun r => id r =? id first) (rows st)))
        by (rewrite Hf; now left).
      apply filter_In in Hx. destruct Hx as [Hx Hid].
      apply in_map_iff. exists x. now rewrite Hid.
Qed.

(** X5: [create] answers 500 only when a statement raises.  In a reachable
    store, an answer of 500 leaves every row as it was and has one of four
    causes: the URL holds U+0000, the sequence is at its end, the URL does
    not fit the index, or the Link found for the URL is at the capacity of
    its count.  Any other answer is InvalidURL, InvalidCode, CodeConflict,
    or Created or Incremented with a row that is in the store afterwards.
    A URL that holds U+0000 is never stored. *)
Theorem create_fails_when_a_statement_raises :
  forall o fuel g now (url sc : js_value) (st : Store) (r : response) (st' : Store),
    reachable elsewhere beyond st ->
    create elsewhere beyond o fuel g now url sc st = Returns r st' ->
    (r = InternalError ->
       rows st' = rows st
       /\ (has_nul (str url) = true
           \/ integer_max < next_id st
           \/ index_fits beyond (str url) = false
           \/ exists l, In l (rows st) /\ target_url l = str url
                        /\ creation_count l = integer_max))
    /\ (r <> InternalError ->
          r = InvalidURL \/ r = InvalidCode \/ r = CodeConflict
          \/ (exists row, r = Created (Some row) /\ In row (rows st'))
          \/ (exists row, r = Incremented (Some row) /\ In row (rows st')))
    /\ (has_nul (str url) = true ->
          rows st' = rows st
          /\ (r = InvalidURL \/ r = InvalidCode \/ r = CodeConflict
              \/ r = InternalError)).
Proof.
  intros o fuel g now url sc st r st' Hreach H.
  pose proof (reachable_ok elsewhere beyond st Hreach) as Hok.
  pose proof (create_answer_kinds _ _ _ _ _ _ _ _ _ H) as Hk.
  pose proof (create_returns elsewhere beyond _ _ _ _ _ _ _ _ _ H) as Hout.
  split; [| split].
  - intros ->. inversion Hout as [| | | | | st1 Hurl Hrows Hseq Hcause]; subst.
    split; [exact Hrows |].
    destruct Hcause as [Hc | [Hc | [Hc | [_ [first [rest [Hsel [l [Hl [Hid Hbad]]]]]]]]]];
      auto.
    right. right. right.
    assert (Hf : In first (first :: rest)) by now left.
    apply (select_by_url_in o (str url) st _ first Hsel) in Hf.
    destruct Hf as [Hfin Hfurl].
    assert (l = first)
      by (apply (same_id_same_row st); try assumption;
          exact (ok_ids elsewhere beyond st Hok)).
    subst l. exists first. split; [assumption |]. split; [assumption |].
    pose proof (ok_counts elsewhere beyond st Hok) as Hc. rewrite Forall_forall in Hc.
    specialize (Hc first Hfin).
    destruct (in_integer (creation_count first + 1)) eqn:E; [discriminate |].
    assert (~ (- integer_max - 1 <= creation_count first + 1 <= integer_max)).
    { intros Hr. apply in_integer_spec in Hr. congruence. }
    lia.
  - intros Hne. destruct Hk as [-> | [-> | [-> | [-> | [Hc | Hi]]]]]; auto.
    now destruct Hne.
  - intros Hnul.
    inversion Hout as [| | | code ? ? ? ? Hn | first rest ? ? Hsel | st1 ? Hrows];
      subst; auto; [congruence |].
    unfold select_by_url in Hsel. rewrite Hnul in Hsel. discriminate.
Qed.

(** ** Reading, deleting and clicking a Link that exists *)

Lemma select_one (st : Store) (before after : list Link) (l : Link) :
  store_ok elsewhere beyond st ->
  rows st = (before ++ l :: after)%list ->
  select_by_code (short_code l) st = [l]
  /\ filter (fun r => negb (short_code r =? short_code l)%string) (rows st)
     = (before ++ after)%list.
Proof.
  intros Hok Hrows. pose proof (ok_codes elsewhere beyond st Hok) as Hnd.
  rewrite Hrows in Hnd.
  pose proof (NoDup_map_others _ _ _ _ Hnd) as Hothers.
  assert (Hb : forall r, In r before -> (short_code r =? short_code l)%string = false).
  { intros r Hr. apply String.eqb_neq, Hothers, in_or_app. now left. }
  assert (Ha : forall r, In r after -> (short_code r =? short_code l)%string = false).
  { intros r Hr. apply String.eqb_neq, Hothers, in_or_app. now right. }
  unfold select_by_code. rewrite Hrows, !filter_app. cbn [filter].
  rewrite String.eqb_refl. cbn [negb].
  rewrite (filter_none _ _ Hb), (filter_none _ _ Ha).
  split; [reflexivity |].
  rewrite !filter_all; [reflexivity | |];
    intros r Hr; apply negb_true_iff; auto.
Qed.

(** The code of a stored Link is a text parameter the database takes. *)
Lemma stored_code_text (st : Store) (l : Link) :
  store_ok elsewhere beyond st -> In l (rows st) -> has_nul (short_code l) = false.
Proof.
  intros Hok Hin. apply has_nul_code.
  pose proof (ok_valid elsewhere beyond st Hok) as H. rewrite Forall_forall in H.
  now apply H.
Qed.

(** X6: in a reachable store, [get] on the code of a Link returns that very
    Link and changes nothing. *)
Theorem get_existing :
  forall (st : Store) (l : Link),
    reachable elsewhere beyond st ->
    In l (rows st) ->
    get (short_code l) st = (Stats (Some l), st).
Proof.
  intros st l Hreach Hin. pose proof (reachable_ok elsewhere beyond st Hreach) as Hok.
  destruct (in_split _ _ Hin) as [before [after Hrows]].
  destruct (select_one st before after l Hok Hrows) as [Hsel _].
  unfold get. now rewrite (select_link_runs _ _ (stored_code_text st l Hok Hin)), Hsel.
Qed.

(** X7: in a reachable store, [delete] on the code of a Link answers
    Deleted and removes that Link and no other, the rest keeping their
    order; from then on [get], the redirect and a second [delete] of the
    code answer NotFound. *)
Theorem delete_existing :
  forall (st : Store) (before after : list Link) (l : Link),
    reachable elsewhere beyond st ->
    rows st = (before ++ l :: after)%list ->
    let st' := {| rows := (before ++ after)%list; next_id := next_id st |} in
    delete (short_code l) st = (Deleted, st')
    /\ get (short_code l) st' = (NotFound, st')
    /\ (forall t, recordClick t (short_code l) st' = (NotFound, st'))
    /\ delete (short_code l) st' = (NotFound, st').
Proof.
  intros st before after l Hreach Hrows st'.
  pose proof (reachable_ok elsewhere beyond st Hreach) as Hok.
  destruct (select_one st before after l Hok Hrows) as [Hsel Hrest].
  assert (Hc : has_nul (short_code l) = false).
  { apply (stored_code_text st l Hok). rewrite Hrows. apply in_or_app. right. now left. }
  assert (Hdel : delete (short_code l) st = (Deleted, st')).
  { unfold delete, Db.delete. rewrite Hc, Hsel, Hrest. reflexivity. }
  assert (Hgone : Spec.no_link (short_code l) st').
  { pose proof (delete_removes (short_code l) st Hc) as H. now rewrite Hdel in H. }
  split; [exact Hdel |].
  split; [now apply get_absent |].
  split; [intros t; now apply recordClick_absent | now apply delete_absent].
Qed.

Lemma last_cons {A} (a d : A) (l : list A) : last (a :: l) d = last l a.
Proof.
  revert a d. induction l as [| b l IH]; intros a d; [reflexivity |].
  change (last (a :: b :: l) d) with (last (b :: l) d). now rewrite !IH.
Qed.

(** X8: clicks add up.  In a reachable store, after the redirect of a
    Link's code was requested at each of [times] in turn, the Link has
    [total_clicks] greater by their number and [last_clicked] at the last
    of them, as long as that total is within the capacity of the column;
    its code, URL, creation count and timestamps of creation and update
    are as before. *)
Theorem clicks_add_up :
  forall (times : list Z) (st : Store) (l : Link),
    reachable elsewhere beyond st ->
    In l (rows st) ->
    total_clicks l + Z.of_nat (List.length times) <= integer_max ->
    exists l',
      In l' (rows (Listing.clicks times (short_code l) st))
      /\ total_clicks l' = total_clicks l + Z.of_nat (List.length times)
      /\ last_clicked l' = last (map Some times) (last_clicked l)
      /\ id l' = id l /\ short_code l' = short_code l
      /\ target_url l' = target_url l
      /\ creation_count l' = creation_count l
      /\ created_at l' = created_at l /\ updated_at l' = updated_at l.
Proof.
  induction times as [| t times IH]; intros st l Hreach Hin Hroom.
  - exists l. cbn. repeat split; [assumption | lia].
  - cbn [List.length] in Hroom.
    destruct (recordClick_row elsewhere beyond st t l Hreach Hin ltac:(lia))
      as [before [after [_ [_ Hclick]]]].
    assert (Hreach1 : reachable elsewhere beyond (snd (recordClick t (short_code l) st))).
    { apply (reach_step elsewhere beyond st); [assumption | apply step_click]. }
    assert (Hin1 : In (bump_clicks t l) (rows (snd (recordClick t (short_code l) st)))).
    { rewrite Hclick. cbn. apply in_or_app. right. now left. }
    destruct (IH _ _ Hreach1 Hin1 ltac:(cbn; lia))
      as [l' [Hl' [Htot [Hlast [Hid [Hcode [Hurl [Hcount [Hcr Hup]]]]]]]]].
    exists l'. cbn [short_code bump_clicks] in Hl'.
    split; [exact Hl' |].
    cbn [total_clicks last_clicked id short_code target_url creation_count
         created_at updated_at bump_clicks] in Htot, Hlast, Hid, Hcode, Hurl,
         Hcount, Hcr, Hup.
    split; [rewrite Htot; cbn [List.length]; lia |].
    split; [cbn [map]; now rewrite last_cons |].
    repeat (split; [assumption |]). assumption.
Qed.

(** X9: what is stored is what the table takes.  In a reachable store every
    code is well formed, and every URL holds no U+0000 and fits the index;
    so a code that fails the pattern is never found: [get], [delete] and
    the redirect answer NotFound on it, or 500 when it holds U+0000, and
    leave the store as it was. *)
Theorem stored_links_are_valid :
  forall st : Store,
    reachable elsewhere beyond st ->
    (forall l, In l (rows st) ->
       Spec.well_formed (short_code l)
       /\ has_nul (short_code l) = false
       /\ has_nul (target_url l) = false
       /\ index_fits beyond (target_url l) = true)
    /\ (forall code t,
          isValidCode code = false ->
          let answer := if has_nul code then InternalError else NotFound in
          get code st = (answer, st)
          /\ delete code st = (answer, st)
          /\ recordClick t code st = (answer, st)).
Proof.
  intros st Hreach. pose proof (reachable_ok elsewhere beyond st Hreach) as Hok.
  pose proof (ok_valid elsewhere beyond st Hok) as Hvalid.
  pose proof (ok_text elsewhere beyond st Hok) as Htext.
  pose proof (ok_index elsewhere beyond st Hok) as Hindex.
  split.
  - rewrite Forall_forall in Hvalid, Htext, Hindex.
    intros l Hin. split; [apply isValidCode_true_iff; now apply Hvalid |].
    split; [apply has_nul_code; now apply Hvalid |].
    split; [now apply Htext | now apply Hindex].
  - intros code t Hbad answer. subst answer.
    pose proof (malformed_absent code st Hvalid Hbad) as Habsent.
    destruct (lookups_absent st code t Habsent) as [Hplain Hnul].
    destruct (has_nul code); [now apply Hnul | now apply Hplain].
Qed.

(** ** What a request does to the Links *)

Lemma in_update (cond : Link -> bool) (set : Link -> Link) (st : Store) (l' : Link) :
  In l' (rows (snd (update cond set st))) ->
  In l' (rows st) \/ exists l, In l (rows st) /\ l' = set l.
Proof.
  cbn. intros H. apply in_map_iff in H. destruct H as [r [Hr Hin]].
  destruct (cond r); subst; [right; now exists r | now left].
Qed.

Lemma in_update_clicks (now : Z) (code : string) (st : Store) (l' : Link) :
  In l' (rows (snd (update_clicks now code st))) ->
  In l' (rows st) \/ exists l, In l (rows st) /\ l' = bump_clicks now l.
Proof.
  unfold update_clicks.
  destruct (update (fun r => (short_code r =? code)%string) (bump_clicks now) st)
    as [result st1] eqn:Hup.
  destruct (has_nul code); cbn [snd]; [now left |].
  destruct (forallb _ result); cbn [snd]; [| now left].
  replace st1
    with (snd (update (fun r => (short_code r =? code)%string) (bump_clicks now) st))
    by now rewrite Hup.
  apply in_update.
Qed.

Lemma in_recordClick (now : Z) (code : string) (st : Store) (l' : Link) :
  In l' (rows (snd (recordClick now code st))) ->
  In l' (rows st) \/ exists l, In l (rows st) /\ l' = bump_clicks now l.
Proof.
  unfold recordClick. intros H. apply (in_update_clicks now code).
  now destruct (update_clicks now code st) as [[[| link result] |] st1].
Qed.

Lemma in_delete (code : string) (st : Store) (l' : Link) :
  In l' (rows (snd (delete code st))) -> In l' (rows st).
Proof.
  unfold delete, Db.delete. destruct (has_nul code); [auto |].
  destruct (List.length (select_by_code code st) =? 0)%nat; cbn; intros H;
    now apply filter_In in H.
Qed.

Lemma get_keeps (code : string) (st : Store) : snd (get code st) = st.
Proof.
  unfold get. destruct (select_link code st) as [result |]; [| reflexivity].
  now destruct (List.length result =? 0)%nat.
Qed.

(** A row after a request is a row of before, such a row rewritten by one
    of the two UPDATE statements, or the row of an INSERT. *)
Lemma step_link_cases (st st' : Store) (l' : Link) :
  step elsewhere beyond st st' ->
  In l' (rows st') ->
  In l' (rows st)
  \/ (exists l now, In l (rows st) /\ l' = bump_creation now l)
  \/ (exists l now, In l (rows st) /\ l' = bump_clicks now l)
  \/ (exists now code url, l' = new_row (next_id st) now code url 0 1).
Proof.
  intros Hstep Hin.
  destruct Hstep as [o fuel g now url code st r st' H | code st | code st | now code st].
  - apply create_returns in H.
    destruct H as [? | ? ? ? | ? ? ? ? | c ? ? ? ? | first rest ? ? ? | st' ? Hrows];
      auto.
    + cbn in Hin. apply in_app_or in Hin. destruct Hin as [Hin | [<- | []]]; [now left |].
      right. right. right. now exists now, c, (str url).
    + apply in_update in Hin. destruct Hin as [Hin | [l [Hl ->]]]; [now left |].
      right. left. now exists l, now.
    + left. now rewrite <- Hrows.
  - left. now rewrite get_keeps in Hin.
  - left. now apply in_delete in Hin.
  - apply in_recordClick in Hin. destruct Hin as [Hin | [l [Hl ->]]]; [now left |].
    right. right. left. now exists l, now.
Qed.

Lemma step_next_id (st st' : Store) :
  step elsewhere beyond st st' ->
  next_id st' = next_id st \/ next_id st' = next_id st + 1.
Proof.
  intros Hstep.
  destruct Hstep as [o fuel g now url code st r st' H | code st | code st | now code st].
  - apply create_returns in H. destruct H; auto.
  - left. now rewrite get_keeps.
  - left. apply delete_keeps_sequence.
  - left. unfold recordClick, update_clicks, update.
    destruct (has_nul code); [reflexivity |].
    destruct (forallb _ _); [| reflexivity].
    now destruct (map (bump_clicks now) _).
Qed.

(** X10: no request rewrites what identifies a Link, and counters only go
    up, one step at a time.  After any request, every Link of the store is
    a Link of before with the same id, code, URL and creation time and with
    each counter equal or greater by 1, or it is the Link just inserted,
    which has the sequence's id, no click and a creation count of 1. *)
Theorem links_evolve :
  forall (st st' : Store) (l' : Link),
    step elsewhere beyond st st' ->
    In l' (rows st') ->
    (exists l, In l (rows st) /\ Listing.evolves l l')
    \/ (id l' = next_id st /\ total_clicks l' = 0 /\ creation_count l' = 1
        /\ last_clicked l' = None /\ created_at l' = updated_at l').
Proof.
  intros st st' l' Hstep Hin.
  destruct (step_link_cases st st' l' Hstep Hin)
    as [H | [[l [now [Hl ->]]] | [[l [now [Hl ->]]] | [now [code [url ->]]]]]].
  - left. exists l'. split; [assumption |]. unfold Listing.evolves. repeat split; lia.
  - left. exists l. split; [assumption |]. unfold Listing.evolves. cbn. repeat split; lia.
  - left. exists l. split; [assumption |]. unfold Listing.evolves. cbn. repeat split; lia.
  - right. repeat split.
Qed.

(** X11: each counter moves on its own path only.  [create] changes the
    clicks and [last_clicked] of no Link; the redirect changes the creation
    count and [updated_at] of no Link; [delete] changes no Link that
    stays. *)
Theorem counters_move_on_their_own_path :
  forall st : Store,
    (forall o fuel g now url sc r st' l',
       create elsewhere beyond o fuel g now url sc st = Returns r st' ->
       In l' (rows st') ->
       (exists l, In l (rows st) /\ id l' = id l
                  /\ total_clicks l' = total_clicks l
                  /\ last_clicked l' = last_clicked l)
       \/ (id l' = next_id st /\ total_clicks l' = 0 /\ last_clicked l' = None))
    /\ (forall t code l',
          In l' (rows (snd (recordClick t code st))) ->
          exists l, In l (rows st) /\ id l' = id l
                    /\ creation_count l' = creation_count l
                    /\ updated_at l' = updated_at l)
    /\ (forall code l', In l' (rows (snd (delete code st))) -> In l' (rows st)).
Proof.
  intros st. split; [| split].
  - intros o fuel g now url sc r st' l' H Hin. apply create_returns in H.
    destruct H as [? | ? ? ? | ? ? ? ? | c ? ? ? ? | first rest ? ? ? | st' ? Hrows];
      try (left; exists l'; now repeat split).
    + cbn in Hin. apply in_app_or in Hin. destruct Hin as [Hin | [<- | []]].
      * left. exists l'. now repeat split.
      * right. repeat split.
    + apply in_update in Hin. destruct Hin as [Hin | [l [Hl ->]]].
      * left. exists l'. now repeat split.
      * left. exists l. now repeat split.
    + left. exists l'. rewrite <- Hrows. now repeat split.
  - intros t code l' Hin. apply in_recordClick in Hin.
    destruct Hin as [Hin | [l [Hl ->]]].
    + exists l'. now repeat split.
    + exists l. now repeat split.
  - intros code l'. apply in_delete.
Qed.

Lemma counters_ok_step (st st' : Store) :
  step elsewhere beyond st st' ->
  Forall Listing.counters_ok (rows st) -> Forall Listing.counters_ok (rows st').
Proof.
  intros Hstep Hok. rewrite Forall_forall in *. intros l' Hin.
  destruct (step_link_cases st st' l' Hstep Hin)
    as [H | [[l [now [Hl ->]]] | [[l [now [Hl ->]]] | [now [code [url ->]]]]]].
  - now apply Hok.
  - destruct (Hok l Hl) as [H0 [H1 H2]]. unfold Listing.counters_ok. cbn.
    split; [assumption |]. split; [lia | assumption].
  - destruct (Hok l Hl) as [H0 [H1 H2]]. unfold Listing.counters_ok. cbn.
    split; [lia |]. split; [assumption |]. split; [discriminate | lia].
  - unfold Listing.counters_ok. cbn. split; [lia |]. split; [lia |]. now split.
Qed.

(** X12: in every reachable store each Link has a number of clicks that is
    not negative, a creation count of at least 1, and a [last_clicked] that
    is absent exactly when it has no click. *)
Theorem counters_invariant :
  forall st : Store,
    reachable elsewhere beyond st ->
    forall l, In l (rows st) ->
      0 <= total_clicks l
      /\ 1 <= creation_count l
      /\ (last_clicked l = None <-> total_clicks l = 0).
Proof.
  intros st Hreach.
  assert (H : Forall Listing.counters_ok (rows st)).
  { induction Hreach as [| st st' _ IH Hstep]; [constructor |].
    now apply (counters_ok_step st st'). }
  rewrite Forall_forall in H. exact H.
Qed.

Lemma ids_positive (st : Store) :
  reachable elsewhere beyond st ->
  1 <= next_id st /\ Forall (fun l => 1 <= id l) (rows st).
Proof.
  induction 1 as [| st st' _ [IHn IHl] Hstep]; [split; [cbn; lia | constructor] |].
  split; [destruct (step_next_id st st' Hstep); lia |].
  rewrite Forall_forall in *. intros l' Hin.
  destruct (step_link_cases st st' l' Hstep Hin)
    as [H | [[l [now [Hl ->]]] | [[l [now [Hl ->]]] | [now [code [url ->]]]]]];
    cbn; auto.
Qed.

(** X13: ids come from the sequence.  In every reachable store the ids of
    the Links are pairwise distinct and lie between 1 and the sequence's
    next value; and no request, a delete included, takes the sequence
    back: it stays or advances by 1. *)
Theorem ids_from_sequence :
  forall st : Store,
    reachable elsewhere beyond st ->
    NoDup (map id (rows st))
    /\ (forall l, In l (rows st) -> 1 <= id l < next_id st)
    /\ (forall st', step elsewhere beyond st st' ->
          next_id st' = next_id st \/ next_id st' = next_id st + 1).
Proof.
  intros st Hreach. pose proof (reachable_ok elsewhere beyond st Hreach) as Hok.
  split; [exact (ok_ids elsewhere beyond st Hok) |].
  split; [| apply step_next_id].
  intros l Hin. destruct (ids_positive st Hreach) as [_ Hpos].
  pose proof (ok_seq elsewhere beyond st Hok) as Hseq.
  rewrite Forall_forall in Hpos, Hseq. split; [now apply Hpos | now apply Hseq].
Qed.

(** ** A URL needs a scheme *)

Lemma scheme_state_colon (s : string) :
  forall buffer p, Url.scheme_state buffer s = Some p ->
                   In ":"%char (list_ascii_of_string s).
Proof.
  induction s as [| c s IH]; intros buffer p H; cbn in H; [discriminate |].
  destruct (Url.is_scheme_char c).
  - right. eapply IH. exact H.
  - destruct (Ascii.eqb_spec c ":"); [left; assumption | discriminate].
Qed.

Lemma strip_leading_chars (c : ascii) (s : string) :
  In c (list_ascii_of_string (Url.strip_leading s)) -> In c (list_ascii_of_string s).
Proof.
  induction s as [| x s IH]; cbn; [auto |].
  destruct (Url.is_c0_or_space x); [intros H; right; now apply IH | auto].
Qed.

Lemma strip_trailing_chars (c : ascii) (s : string) :
  In c (list_ascii_of_string (Url.strip_trailing s)) -> In c (list_ascii_of_string s).
Proof.
  induction s as [| x s IH]; cbn; [auto |].
  destruct (Url.is_c0_or_space x && (Url.strip_trailing s =? "")%string); cbn.
  - intros [].
  - intros [H | H]; [now left | right; now apply IH].
Qed.

Lemma remove_tab_newline_chars (c : ascii) (s : string) :
  In c (list_ascii_of_string (Url.remove_tab_newline s)) ->
  In c (list_ascii_of_string s).
Proof.
  induction s as [| x s IH]; cbn; [auto |].
  destruct (Url.is_tab_or_newline x); cbn.
  - intros H. right. now apply IH.
  - intros [H | H]; [now left | right; now apply IH].
Qed.

Lemma isValidUrl_colon (url : string) :
  isValidUrl elsewhere url = true -> In ":"%char (list_ascii_of_string url).
Proof.
  unfold isValidUrl, Url.URL_new.
  destruct (Url.scheme_start_state _) as [[scheme rest] |] eqn:E; [| discriminate].
  intros _. apply strip_leading_chars, strip_trailing_chars, remove_tab_newline_chars.
  unfold Url.scheme_start_state in E.
  destruct (Url.remove_tab_newline _) as [| c s]; [discriminate |].
  destruct (Url.is_alpha c); [| discriminate].
  right. eapply scheme_state_colon. exact E.
Qed.

(** X14: a URL needs a scheme.  A [target_url] in which no colon occurs
    (a bare host name such as [google.com], a path, free text) fails the
    URL check, and [create] answers InvalidURL and stores nothing, with or
    without a custom code. *)
Theorem create_rejects_url_without_scheme :
  forall (url : string) o fuel g now (sc : js_value) (st : Store),
    ~ In ":"%char (list_ascii_of_string url) ->
    isValidUrl elsewhere url = false
    /\ create elsewhere beyond o fuel g now (Some url) sc st = Returns InvalidURL st.
Proof.
  intros url o fuel g now sc st Hno.
  assert (H : isValidUrl elsewhere url = false).
  { destruct (isValidUrl elsewhere url) eqn:E; [| reflexivity].
    destruct (Hno (isValidUrl_colon url E)). }
  split; [exact H |].
  unfold create. cbn [str]. rewrite H. now rewrite orb_true_r.
Qed.

(** ** The dashboard *)

Lemma substring_length (n : nat) (s : string) :
  String.length (String.substring 0 n s) = Nat.min n (String.length s).
Proof.
  revert s. induction n as [| n IH]; intros [| c s]; cbn; try reflexivity.
  now rewrite IH.
Qed.

Lemma substring_prefix (n : nat) (s : string) :
  String.prefix (String.substring 0 n s) s = true.
Proof.
  revert s. induction n as [| n IH]; intros [| c s]; cbn; try reflexivity.
  rewrite IH. now destruct (ascii_dec c c).
Qed.

Lemma substring_zero (s : string) : String.substring 0 0 s = "".
Proof. now destruct s. Qed.

Lemma substring_append (n : nat) (s t : string) :
  (n <= String.length s)%nat ->
  String.substring 0 n (String.substring 0 n s ++ t) = String.substring 0 n s.
Proof.
  revert s. induction n as [| n IH]; intros s H.
  - now rewrite !substring_zero.
  - destruct s as [| c s]; cbn in H; [lia |].
    cbn. rewrite IH; [reflexivity | lia].
Qed.

(** X15: [truncateUrl] returns at most 53 characters: a URL of up to 50
    characters as it is, a longer one as its first 50 characters followed
    by three dots; truncating what was truncated changes nothing. *)
Theorem truncateUrl_spec :
  forall url : string,
    (String.length (Dashboard.truncateUrl url) <= 53)%nat
    /\ ((String.length url <= 50)%nat -> Dashboard.truncateUrl url = url)
    /\ ((50 < String.length url)%nat ->
        Dashboard.truncateUrl url = (String.substring 0 50 url ++ "...")%string
        /\ String.length (Dashboard.truncateUrl url) = 53%nat
        /\ String.prefix (String.substring 0 50 url) url = true)
    /\ Dashboard.truncateUrl (Dashboard.truncateUrl url) = Dashboard.truncateUrl url.
Proof.
  intros url. unfold Dashboard.truncateUrl.
  assert (Hlen : forall t, String.length (t ++ "...")%string = (String.length t + 3)%nat).
  { induction t as [| c t IH]; cbn; [reflexivity | now rewrite IH]. }
  destruct (50 <? String.length url)%nat eqn:E.
  - apply Nat.ltb_lt in E.
    assert (H53 : String.length (String.substring 0 50 url ++ "...")%string = 53%nat).
    { rewrite Hlen, substring_length. lia. }
    split; [lia |]. split; [lia |].
    split; [intros _; repeat split; [exact H53 | apply substring_prefix] |].
    rewrite H53. cbn [Nat.ltb Nat.leb]. f_equal.
    apply substring_append. lia.
  - apply Nat.ltb_ge in E. split; [lia |]. split; [reflexivity |].
    split; [lia |]. apply Nat.ltb_ge in E. now rewrite E.
Qed.

Lemma prefix_refl (s : string) : String.prefix s s = true.
Proof.
  induction s as [| c s IH]; cbn; [reflexivity |]. now destruct (ascii_dec c c).
Qed.

Lemma includes_refl (s : string) : Dashboard.includes s s = true.
Proof.
  destruct s as [| a s]; [reflexivity |].
  change (Dashboard.includes (String a s) (String a s))
    with (String.prefix (String a s) (String a s)
          || Dashboard.includes s (String a s)).
  now rewrite prefix_refl.
Qed.

Lemma prefix_app (t s : string) :
  String.prefix t s = true <-> exists b, s = (t ++ b)%string.
Proof.
  revert s. induction t as [| c t IH]; intros s.
  - split; [intros _; now exists s | intros _; now destruct s].
  - destruct s as [| x s]; cbn.
    + split; [discriminate | intros [b H]; discriminate].
    + destruct (ascii_dec c x) as [-> | Hne].
      * rewrite IH. split; intros [b H]; exists b; [now rewrite H | now injection H].
      * split; [discriminate | intros [b H]; injection H as -> _; contradiction].
Qed.

(** [includes] is the occurrence of one string in another. *)
Lemma includes_spec (s t : string) :
  Dashboard.includes s t = true <-> exists a b, s = (a ++ t ++ b)%string.
Proof.
  induction s as [| c s IH].
  - cbn [Dashboard.includes]. rewrite orb_false_r, prefix_app. split.
    + intros [b H]. now exists "", b.
    + intros [a [b H]]. destruct a; [now exists b | discriminate].
  - change (Dashboard.includes (String c s) t)
      with (String.prefix t (String c s) || Dashboard.includes s t).
    rewrite orb_true_iff, prefix_app, IH. split.
    + intros [[b H] | [a [b H]]]; [now exists "", b |].
      exists (String c a), b. cbn. now rewrite H.
    + intros [a [b H]]. destruct a as [| x a]; [left; now exists b |].
      right. injection H as _ H. now exists a, b.
Qed.

(** X16: the search box.  [handleSearch] shows the loaded links whose code
    or URL, lowercased, contains the lowercased text; all of them when the
    text lowercases to nothing.  Typing a link's own code
    or URL always shows that link. *)
Theorem handleSearch_spec :
  forall (toLowerCase : string -> string) (allLinks : list Link) (value : string),
    (forall l,
       In l (Dashboard.handleSearch toLowerCase allLinks value)
       <-> In l allLinks
           /\ (toLowerCase value = ""
               \/ (exists a b,
                     toLowerCase (short_code l) = (a ++ toLowerCase value ++ b)%string)
               \/ (exists a b,
                     toLowerCase (target_url l) = (a ++ toLowerCase value ++ b)%string)))
    /\ (forall l, In l allLinks ->
          In l (Dashboard.handleSearch toLowerCase allLinks (short_code l))
          /\ In l (Dashboard.handleSearch toLowerCase allLinks (target_url l))).
Proof.
  intros toLowerCase allLinks value.
  assert (Hiff : forall v l,
     In l (Dashboard.handleSearch toLowerCase allLinks v)
     <-> In l allLinks
         /\ (toLowerCase v = ""
             \/ (exists a b, toLowerCase (short_code l) = (a ++ toLowerCase v ++ b)%string)
             \/ (exists a b, toLowerCase (target_url l) = (a ++ toLowerCase v ++ b)%string))).
  { intros v l. unfold Dashboard.handleSearch. cbn [truthy].
    destruct (String.eqb_spec (toLowerCase v) "") as [E | E]; cbn [negb].
    - split; [intros H; split; [assumption | now left] | now intros [H _]].
    - rewrite filter_In, orb_true_iff, !includes_spec. split.
      + intros [H [H1 | H1]]; (split; [assumption |]); [right; now left | now right; right].
      + intros [H [H1 | [H1 | H1]]]; [contradiction | |]; (split; [assumption |]);
          [now left | now right]. }
  split; [apply Hiff |].
  intros l Hin. split; apply Hiff; (split; [assumption |]); right.
  - left. exists "", "". cbn. now rewrite append_empty_r.
  - right. exists "", "". cbn. now rewrite append_empty_r.
Qed.

(** X17: the dashboard and the server check the same things.  When
    [handleCreateLink] posts, the server answers neither InvalidURL nor
    InvalidCode; when it shows an error under the URL or under the code,
    the server would have answered InvalidURL, respectively InvalidCode, to
    the same values. *)
Theorem dashboard_agrees_with_server :
  forall (targetUrl shortCode : string) o fuel g now (st : Store),
    (forall tu sc r st',
       Dashboard.handleCreateLink elsewhere targetUrl shortCode = Dashboard.Post tu sc ->
       create elsewhere beyond o fuel g now tu sc st = Returns r st' ->
       tu = Some targetUrl /\ r <> InvalidURL /\ r <> InvalidCode)
    /\ (forall m sc,
          Dashboard.handleCreateLink elsewhere targetUrl shortCode = Dashboard.UrlError m ->
          create elsewhere beyond o fuel g now (Some targetUrl) sc st = Returns InvalidURL st)
    /\ (forall m,
          Dashboard.handleCreateLink elsewhere targetUrl shortCode = Dashboard.CodeError m ->
          create elsewhere beyond o fuel g now (Some targetUrl) (Some shortCode) st
          = Returns InvalidCode st).
Proof.
  intros targetUrl shortCode o fuel g now st.
  unfold Dashboard.handleCreateLink.
  destruct (truthy (Some targetUrl)) eqn:Ht; cbn [negb].
  2: { split; [discriminate |]. split; [| discriminate].
       intros m sc _. unfold create. now rewrite Ht. }
  destruct (isValidUrl elsewhere targetUrl) eqn:Hv; cbn [negb].
  2: { split; [discriminate |]. split; [| discriminate].
       intros m sc _. unfold create. cbn [str]. rewrite Hv. now rewrite orb_true_r. }
  destruct (truthy (Some shortCode) && negb (isValidCode shortCode)) eqn:Hc.
  - split; [discriminate |]. split; [discriminate |].
    intros m _. unfold create. cbn [str]. now rewrite Ht, Hv, Hc.
  - split; [| split; discriminate].
    intros tu sc r st' Hpost Hcreate. injection Hpost as <- <-.
    split; [reflexivity |].
    apply create_returns in Hcreate.
    destruct Hcreate as [[H | H] | ? Hs Hbad | | | |]; try (split; discriminate).
    + congruence.
    + cbn [str] in H. congruence.
    + destruct shortCode as [| c0 code0]; cbn in Hs, Hbad, Hc; [discriminate Hs |].
      rewrite Hbad in Hc. discriminate Hc.
Qed.

(** ** The stats page *)

Lemma split_no_sep (sep : ascii) (s : string) :
  (forall x, In x (list_ascii_of_string s) -> x <> sep) ->
  forall cur, StatsPage.split sep s cur = [(cur ++ s)%string].
Proof.
  induction s as [| c s IH]; intros H cur; cbn.
  - now rewrite append_empty_r.
  - destruct (Ascii.eqb_spec c sep) as [E | E].
    + destruct (H c (or_introl eq_refl) E).
    + rewrite IH; [now rewrite append_assoc | intros x Hx; apply H; now right].
Qed.

Lemma split_nonempty (sep : ascii) (s : string) :
  forall cur, StatsPage.split sep s cur <> [].
Proof.
  induction s as [| c s IH]; intros cur; cbn; [discriminate |].
  destruct (c =? sep)%char; [discriminate | apply IH].
Qed.

Lemma nth_last_piece {A} (l : list A) (d : A) :
  nth (List.length l - 1) l d = last l d.
Proof.
  induction l as [| a l IH]; [reflexivity |].
  destruct l as [| b l]; [reflexivity |].
  cbn [List.length Nat.sub] in *. rewrite Nat.sub_0_r in IH.
  change (last (a :: b :: l) d) with (last (b :: l) d). now rewrite <- IH.
Qed.

Lemma split_last (sep : ascii) (pre c : string) :
  (forall x, In x (list_ascii_of_string c) -> x <> sep) ->
  forall cur, last (StatsPage.split sep (pre ++ String sep c) cur) "" = c.
Proof.
  intros H. induction pre as [| x pre IH]; intros cur; cbn.
  - rewrite Ascii.eqb_refl, (split_no_sep sep c H). reflexivity.
  - destruct (x =? sep)%char; [| apply IH].
    specialize (IH ""). pose proof (split_nonempty sep (pre ++ String sep c) "") as Hne.
    destruct (StatsPage.split sep (pre ++ String sep c) "") as [| y l];
      [contradiction | exact IH].
Qed.

(** X18: the stats page reads the code after the last slash of the path.
    For a path that ends in a slash followed by a slash-free text, that
    text is the code asked of the server; when nothing follows the last
    slash ([/code/abc/]) no request is made and the page shows
    [Invalid link code]. *)
Theorem loadStats_code_spec :
  forall pre c : string,
    (forall x, In x (list_ascii_of_string c) -> x <> "/"%char) ->
    StatsPage.loadStats_code (pre ++ String "/" c)
    = if (c =? "")%string then None else Some c.
Proof.
  intros pre c H. unfold StatsPage.loadStats_code.
  rewrite nth_last_piece, (split_last "/" pre c H). now destruct c.
Qed.

(** ** Allocation and resubmission *)

(** X19: the allocation loop never hands out a code in use.  Whatever the
    random draws and however long it runs, a code it returns is well formed
    and held by no Link. *)
Theorem allocate_returns_free_code :
  forall (fuel : nat) (g : randomness) (st : Store) (code : string),
    allocate fuel g st = Some code ->
    Spec.well_formed code /\ Spec.no_link code st.
Proof.
  intros fuel g st code H. destruct (allocate_some g st fuel code H) as [Hv Hf].
  split; [now apply isValidCode_true_iff | now apply no_link_select].
Qed.

(** X20: submitting a new URL twice, without a custom code, gives one Link.
    In a reachable store for which the lookup by URL runs (the URL holds no
    U+0000) and returns no row, with a URL that passes and fits the index
    and while the sequence has a value left, the first [create] stores it under the first free candidate; a second
    [create] for the same URL, whatever its random draws and the order of
    the rows its SELECT returns, answers with the same code and a creation
    count of 2, and adds no row. *)
Theorem create_twice_same_code :
  forall (o : row_order) (st : Store) (url : string) (n fuel : nat)
         (g : randomness) (now : Z),
    reachable elsewhere beyond st ->
    isValidUrl elsewhere url = true ->
    index_fits beyond url = true ->
    next_id st <= integer_max ->
    select_by_url o url st = Some [] ->
    (forall i, (i < n)%nat -> select_by_code (fst (candidate g i 0)) st <> []) ->
    select_by_code (fst (candidate g n 0)) st = [] ->
    (n < fuel)%nat ->
    let row := new_row (next_id st) now (fst (candidate g n 0)) url 0 1 in
    let st1 := {| rows := (rows st ++ [row])%list; next_id := next_id st + 1 |} in
    create elsewhere beyond o fuel g now (Some url) None st
    = Returns (Created (Some row)) st1
    /\ forall o' fuel' g' now',
         create elsewhere beyond o' fuel' g' now' (Some url) None st1
         = Returns (Incremented (Some (bump_creation now' row)))
             {| rows := (rows st ++ [bump_creation now' row])%list;
                next_id := next_id st1 |}
         /\ short_code (bump_creation now' row) = short_code row
         /\ creation_count (bump_creation now' row) = 2.
Proof.
  intros o st url n fuel g now Hreach Hurl Hfits Hseq Hnew Htaken Hfree Hfuel
         row st1.
  pose proof (reachable_ok elsewhere beyond st Hreach) as Hok.
  assert (Hnul : has_nul url = false).
  { unfold select_by_url in Hnew. now destruct (has_nul url). }
  assert (Hfirst : create elsewhere beyond o fuel g now (Some url) None st
                   = Returns (Created (Some row)) st1).
  { rewrite (create_allocates o st url n fuel g now) by assumption.
    apply insert_and_answer_fresh; try assumption. apply candidate_valid. }
  split; [exact Hfirst |].
  intros o' fuel' g' now'. split; [| split; reflexivity].
  assert (Hnone : filter (fun r => (target_url r =? url)%string) (rows st) = []).
  { unfold select_by_url in Hnew. rewrite Hnul in Hnew. injection Hnew as Hnew.
    apply Permutation_nil. rewrite <- Hnew. apply scan_perm. }
  apply (create_same_url elsewhere beyond o' fuel' g' now' url st1 (rows st) [] row).
  - apply store_ok_insert; try assumption. apply candidate_valid.
  - exact Hurl.
  - split; [reflexivity |]. split; [reflexivity |]. exists [].
    unfold select_by_url. rewrite Hnul. cbn [rows st1]. rewrite filter_app, Hnone.
    cbn [filter app target_url row new_row]. rewrite String.eqb_refl.
    now rewrite scan_one.
  - cbn. unfold integer_max. lia.
Qed.

End MoreProperties.

(** * The further properties on sample inputs *)

Lemma create_malformed_code_witness :
  create Examples.rejecting Examples.short_rows Examples.table_order 0 Examples.zeros 20
    (Some "https://google.com") (Some "abc") Examples.one_link
  = Returns InvalidCode Examples.one_link.
Proof.
  destruct (create_malformed_code Examples.rejecting Examples.short_rows
              Examples.table_order 0%nat Examples.zeros 20
              (Some "https://google.com") Examples.one_link) as [H _].
  apply H; [reflexivity | reflexivity | discriminate | reflexivity].
Defined.

Lemma create_new_url_witness :
  next_id Examples.one_link <= integer_max
  /\ create Examples.rejecting Examples.short_rows Examples.table_order 2
       Examples.zeros_then_halves 20 (Some "https://example.com") None Examples.one_link
     = Returns (Created (Some (new_row 2 20 "fffffff" "https://example.com" 0 1)))
         {| rows := [Examples.google; new_row 2 20 "fffffff" "https://example.com" 0 1];
            next_id := 3 |}.
Proof.
  assert (H : forall i, (i < 1)%nat ->
     select_by_code (fst (candidate Examples.zeros_then_halves i 0)) Examples.one_link
     <> []).
  { intros i Hi. replace i with 0%nat by lia. discriminate. }
  assert (Hseq : next_id Examples.one_link <= integer_max).
  { cbn. unfold integer_max. lia. }
  split; [exact Hseq |].
  exact (proj1 (create_new_url Examples.rejecting Examples.short_rows
                  Examples.table_order Examples.one_link "https://example.com"
                  1 2 Examples.zeros_then_halves 20 eq_refl eq_refl Hseq
                  eq_refl H eq_refl (Nat.lt_succ_diag_r 1))).
Defined.

Lemma create_then_lookup_witness :
  Spec.no_link "BBBBBB" Examples.one_link
  /\ next_id Examples.one_link <= integer_max
  /\ get "BBBBBB"
       {| rows := [Examples.google; new_row 2 20 "BBBBBB" "https://example.com" 0 1];
          next_id := 3 |}
     = (Stats (Some (new_row 2 20 "BBBBBB" "https://example.com" 0 1)),
        {| rows := [Examples.google; new_row 2 20 "BBBBBB" "https://example.com" 0 1];
           next_id := 3 |}).
Proof.
  assert (Hfresh : Spec.no_link "BBBBBB" Examples.one_link).
  { intros r [<- | []]. discriminate. }
  assert (Hseq : next_id Examples.one_link <= integer_max).
  { cbn. unfold integer_max. lia. }
  split; [exact Hfresh |]. split; [exact Hseq |].
  exact (proj1 (proj2 (create_then_lookup Examples.rejecting Examples.short_rows
                         Examples.table_order Examples.one_link
                         "https://example.com" "BBBBBB" 0%nat Examples.zeros 20 30
                         eq_refl eq_refl eq_refl Hseq eq_refl Hfresh))).
Defined.

Lemma create_fails_when_a_statement_raises_witness :
  reachable Examples.rejecting Examples.short_rows Examples.one_link
  /\ create Examples.rejecting Examples.short_rows Examples.table_order 0 Examples.zeros
       20 (Some Examples.nul_url) (Some "BBBBBB") Examples.one_link
     = Returns InternalError Examples.one_link
  /\ isValidUrl Examples.rejecting Examples.nul_url = true
  /\ (has_nul Examples.nul_url = true
      \/ integer_max < next_id Examples.one_link
      \/ index_fits Examples.short_rows Examples.nul_url = false
      \/ exists l, In l (rows Examples.one_link)
                   /\ target_url l = Examples.nul_url
                   /\ creation_count l = integer_max).
Proof.
  split; [exact (reachable_one_link Examples.rejecting Examples.short_rows) |].
  split; [reflexivity |]. split; [reflexivity |].
  exact (proj2 (proj1 (create_fails_when_a_statement_raises Examples.rejecting
                         Examples.short_rows Examples.table_order 0%nat Examples.zeros 20
                         (Some Examples.nul_url) (Some "BBBBBB") Examples.one_link _ _
                         (reachable_one_link Examples.rejecting Examples.short_rows)
                         eq_refl) eq_refl)).
Defined.

Lemma get_existing_witness :
  reachable Examples.rejecting Examples.short_rows Examples.one_link
  /\ In Examples.google (rows Examples.one_link)
  /\ get "AAAAAA" Examples.one_link = (Stats (Some Examples.google), Examples.one_link).
Proof.
  split; [exact (reachable_one_link Examples.rejecting Examples.short_rows) |].
  split; [now left |].
  exact (get_existing Examples.rejecting Examples.short_rows Examples.one_link
           Examples.google
           (reachable_one_link Examples.rejecting Examples.short_rows)
           (or_introl eq_refl)).
Defined.

Lemma delete_existing_witness :
  reachable Examples.rejecting Examples.short_rows Examples.one_link
  /\ delete "AAAAAA" Examples.one_link = (Deleted, {| rows := []; next_id := 2 |})
  /\ get "AAAAAA" {| rows := []; next_id := 2 |}
     = (NotFound, {| rows := []; next_id := 2 |}).
Proof.
  split; [exact (reachable_one_link Examples.rejecting Examples.short_rows) |].
  destruct (delete_existing Examples.rejecting Examples.short_rows Examples.one_link
              [] [] Examples.google
              (reachable_one_link Examples.rejecting Examples.short_rows) eq_refl)
    as [Hdel [Hget _]].
  split; [exact Hdel | exact Hget].
Defined.

Lemma clicks_add_up_witness :
  reachable Examples.rejecting Examples.short_rows Examples.one_link
  /\ In Examples.google (rows Examples.one_link)
  /\ total_clicks Examples.google + 3 <= integer_max
  /\ exists l',
       In l' (rows (Listing.clicks [20; 30; 40] "AAAAAA" Examples.one_link))
       /\ total_clicks l' = 3 /\ last_clicked l' = Some 40.
Proof.
  assert (Hroom : total_clicks Examples.google + 3 <= integer_max).
  { cbn. unfold integer_max. lia. }
  split; [exact (reachable_one_link Examples.rejecting Examples.short_rows) |].
  split; [now left |]. split; [exact Hroom |].
  destruct (clicks_add_up Examples.rejecting Examples.short_rows [20; 30; 40]
              Examples.one_link Examples.google
              (reachable_one_link Examples.rejecting Examples.short_rows)
              (or_introl eq_refl) Hroom)
    as [l' [Hin [Htot [Hlast _]]]].
  exists l'. split; [exact Hin |]. split; [exact Htot | exact Hlast].
Defined.

Lemma stored_links_are_valid_witness :
  reachable Examples.rejecting Examples.short_rows Examples.one_link
  /\ Spec.well_formed "AAAAAA"
  /\ get "abc" Examples.one_link = (NotFound, Examples.one_link)
  /\ get Examples.nul_code Examples.one_link = (InternalError, Examples.one_link).
Proof.
  split; [exact (reachable_one_link Examples.rejecting Examples.short_rows) |].
  destruct (stored_links_are_valid Examples.rejecting Examples.short_rows
              Examples.one_link
              (reachable_one_link Examples.rejecting Examples.short_rows))
    as [Hvalid Hbad].
  split; [exact (proj1 (Hvalid Examples.google (or_introl eq_refl))) |].
  split.
  - exact (proj1 (Hbad "abc" 0 eq_refl)).
  - exact (proj1 (Hbad Examples.nul_code 0 eq_refl)).
Defined.

Lemma links_evolve_witness :
  step Examples.rejecting Examples.short_rows Examples.one_link
    (snd (recordClick 20 "AAAAAA" Examples.one_link))
  /\ In (bump_clicks 20 Examples.google)
        (rows (snd (recordClick 20 "AAAAAA" Examples.one_link)))
  /\ ((exists l, In l (rows Examples.one_link)
                 /\ Listing.evolves l (bump_clicks 20 Examples.google))
      \/ (id (bump_clicks 20 Examples.google) = next_id Examples.one_link
          /\ total_clicks (bump_clicks 20 Examples.google) = 0
          /\ creation_count (bump_clicks 20 Examples.google) = 1
          /\ last_clicked (bump_clicks 20 Examples.google) = None
          /\ created_at (bump_clicks 20 Examples.google)
             = updated_at (bump_clicks 20 Examples.google))).
Proof.
  split; [apply step_click |]. split; [now left |].
  exact (links_evolve Examples.rejecting Examples.short_rows Examples.one_link _ _
           (step_click Examples.rejecting Examples.short_rows 20 "AAAAAA"
              Examples.one_link)
           (or_introl eq_refl)).
Defined.

Lemma counters_move_on_their_own_path_witness :
  In (bump_clicks 20 Examples.google)
     (rows (snd (recordClick 20 "AAAAAA" Examples.one_link)))
  /\ exists l, In l (rows Examples.one_link)
               /\ id (bump_clicks 20 Examples.google) = id l
               /\ creation_count (bump_clicks 20 Examples.google) = creation_count l
               /\ updated_at (bump_clicks 20 Examples.google) = updated_at l.
Proof.
  split; [now left |].
  destruct (counters_move_on_their_own_path Examples.rejecting Examples.short_rows
              Examples.one_link)
    as [_ [Hclick _]].
  exact (Hclick 20 "AAAAAA" _ (or_introl eq_refl)).
Defined.

Lemma counters_invariant_witness :
  reachable Examples.rejecting Examples.short_rows Examples.one_link
  /\ In Examples.google (rows Examples.one_link)
  /\ 0 <= total_clicks Examples.google
  /\ 1 <= creation_count Examples.google
  /\ (last_clicked Examples.google = None <-> total_clicks Examples.google = 0).
Proof.
  split; [exact (reachable_one_link Examples.rejecting Examples.short_rows) |].
  split; [now left |].
  exact (counters_invariant Examples.rejecting Examples.short_rows Examples.one_link
           (reachable_one_link Examples.rejecting Examples.short_rows)
           Examples.google (or_introl eq_refl)).
Defined.

Lemma ids_from_sequence_witness :
  reachable Examples.rejecting Examples.short_rows Examples.one_link
  /\ NoDup (map id (rows Examples.one_link))
  /\ 1 <= id Examples.google < next_id Examples.one_link.
Proof.
  split; [exact (reachable_one_link Examples.rejecting Examples.short_rows) |].
  destruct (ids_from_sequence Examples.rejecting Examples.short_rows Examples.one_link
              (reachable_one_link Examples.rejecting Examples.short_rows))
    as [Hnd [Hid _]].
  split; [exact Hnd | exact (Hid Examples.google (or_introl eq_refl))].
Defined.

Lemma create_rejects_url_without_scheme_witness :
  ~ In ":"%char (list_ascii_of_string "google.com")
  /\ isValidUrl Examples.rejecting "google.com" = false
  /\ create Examples.rejecting Examples.short_rows Examples.table_order 0 Examples.zeros
       20 (Some "google.com") None Examples.one_link
     = Returns InvalidURL Examples.one_link.
Proof.
  assert (H : ~ In ":"%char (list_ascii_of_string "google.com")).
  { cbn. intros H. repeat (destruct H as [H | H]; [discriminate |]). exact H. }
  split; [exact H |].
  exact (create_rejects_url_without_scheme Examples.rejecting Examples.short_rows
           "google.com" Examples.table_order 0%nat Examples.zeros 20 None
           Examples.one_link H).
Defined.

Lemma handleSearch_spec_witness :
  In Examples.google [Examples.google]
  /\ In Examples.google
        (Dashboard.handleSearch Url.lowercase [Examples.google] "AAAAAA")
  /\ Dashboard.handleSearch Url.lowercase [Examples.google] "GOOGLE" = [Examples.google]
  /\ Dashboard.handleSearch Url.lowercase [Examples.google] "bing" = [].
Proof.
  split; [now left |].
  destruct (handleSearch_spec Url.lowercase [Examples.google] "AAAAAA") as [_ H].
  split; [exact (proj1 (H Examples.google (or_introl eq_refl))) |].
  split; reflexivity.
Defined.

Lemma dashboard_agrees_with_server_witness :
  Dashboard.handleCreateLink Examples.rejecting "https://google.com" "abc"
  = Dashboard.CodeError "Code must be 6-8 alphanumeric characters (A-Z, a-z, 0-9)"
  /\ create Examples.rejecting Examples.short_rows Examples.table_order 0 Examples.zeros
       20 (Some "https://google.com") (Some "abc") Examples.one_link
     = Returns InvalidCode Examples.one_link.
Proof.
  split; [reflexivity |].
  destruct (dashboard_agrees_with_server Examples.rejecting Examples.short_rows
              "https://google.com" "abc" Examples.table_order
              0%nat Examples.zeros 20 Examples.one_link) as [_ [_ H]].
  exact (H _ eq_refl).
Defined.

Lemma loadStats_code_spec_witness :
  (forall x, In x (list_ascii_of_string "AAAAAA") -> x <> "/"%char)
  /\ StatsPage.loadStats_code "/code/AAAAAA" = Some "AAAAAA"
  /\ StatsPage.loadStats_code "/code/AAAAAA/" = None.
Proof.
  assert (H : forall x, In x (list_ascii_of_string "AAAAAA") -> x <> "/"%char).
  { cbn. intros x Hx. repeat (destruct Hx as [<- | Hx]; [discriminate |]). destruct Hx. }
  split; [exact H |].
  split.
  - exact (loadStats_code_spec "/code" "AAAAAA" H).
  - reflexivity.
Defined.

Lemma allocate_returns_free_code_witness :
  allocate 2 Examples.zeros_then_halves Examples.one_link = Some "fffffff"
  /\ Spec.well_formed "fffffff"
  /\ Spec.no_link "fffffff" Examples.one_link.
Proof.
  split; [reflexivity |].
  exact (allocate_returns_free_code 2 Examples.zeros_then_halves Examples.one_link
           "fffffff" eq_refl).
Defined.

Lemma create_twice_same_code_witness :
  reachable Examples.rejecting Examples.short_rows empty
  /\ next_id empty <= integer_max
  /\ create Examples.rejecting Examples.short_rows Examples.table_order 1 Examples.zeros
       10 (Some "https://google.com") None empty
     = Returns (Created (Some Examples.google)) Examples.one_link
  /\ create Examples.rejecting Examples.short_rows Examples.last_row_first 0
       Examples.zeros_then_halves 20 (Some "https://google.com") None Examples.one_link
     = Returns (Incremented (Some (bump_creation 20 Examples.google)))
         {| rows := [bump_creation 20 Examples.google]; next_id := 2 |}.
Proof.
  assert (H : forall i, (i < 0)%nat ->
     select_by_code (fst (candidate Examples.zeros i 0)) empty <> []).
  { intros i Hi. lia. }
  assert (Hseq : next_id empty <= integer_max).
  { cbn. unfold integer_max. lia. }
  split; [apply reach_empty |]. split; [exact Hseq |].
  destruct (create_twice_same_code Examples.rejecting Examples.short_rows
              Examples.table_order empty "https://google.com" 0 1
              Examples.zeros 10 (reach_empty Examples.rejecting Examples.short_rows)
              eq_refl eq_refl Hseq eq_refl H eq_refl (Nat.lt_0_succ 0))
    as [Hfirst Hsecond].
  split; [exact Hfirst |].
  exact (proj1 (Hsecond Examples.last_row_first 0%nat Examples.zeros_then_halves 20)).
Defined.
